(** * Focus arbitration of the AFML FocusManager

    A shallow embedding of [AFML/src/FocusManager.cpp] and a verification of
    its arbitration properties.

    - A [std::shared_ptr<Channel>] is modelled by the name under which the
      channel is registered in [m_allChannels]: the constructor creates one
      [Channel] object per inserted name and never removes one, so names and
      channel objects correspond one to one.  [m_allChannels] is therefore
      both the name table and the store holding the channel objects.
    - [m_activeChannels] is a [std::set] ordered by [ChannelPtrComparator];
      it is modelled by the list of its elements in iteration order.
    - The executor runs one task at a time, so a task is one atomic
      transition; the mutex only protects the snapshot that
      [stopForegroundActivity] takes on the caller's thread.
    - Observer callbacks, log entries and promise values are collected in
      the [outputs] trace, oldest first.  Observers are opaque sinks.
    - [Channel.cpp] is not among the sources.  The channel methods follow
      the contracts of the specification; what [stopActivity] does to the
      channel when the activity ids match is left open there, and the
      development carries both readings as a parameter, [StopEffect]. *)

From stdpp Require Import gmap strings list fin_maps sorting.
From Stdlib Require Import NArith.

(** ** Focus states, configurations and outputs *)

Inductive FocusState := FOREGROUND | BACKGROUND | NONE.

#[global] Instance FocusState_eq_dec : EqDecision FocusState.
Proof. solve_decision. Defined.

(** Modelled from the spec: [ChannelConfiguration] is declared in a header
    that is not among the sources; the spec gives it a name and an unsigned
    priority. *)
Record ChannelConfiguration := mkConfig {
  name : string;
  priority : N;
}.

(** The entries written with [ACSDK_ERROR] / [ACSDK_DEBUG]. *)
Inductive LogEntry :=
  | createChannelFailed (reason : string) (config : ChannelConfiguration)
  | acquireChannelFailed (reason : string) (channelName : string)
  | releaseChannelFailed (reason : string) (channelName : string)
  | releaseChannelHelperFailed (reason : string) (channel : string)
  | stopForegroundActivityFailed (reason : string).

(** What the manager does to the outside world.  An observer is identified
    by a number; the null observer receives nothing. *)
Inductive Output :=
  | onFocusChanged (observer : nat) (focus : FocusState)
  | logged (entry : LogEntry)
  | set_value (result : bool).

#[global] Instance ChannelConfiguration_eq_dec : EqDecision ChannelConfiguration.
Proof. solve_decision. Defined.
#[global] Instance LogEntry_eq_dec : EqDecision LogEntry.
Proof. solve_decision. Defined.
#[global] Instance Output_eq_dec : EqDecision Output.
Proof. solve_decision. Defined.

(** Modelled from the spec: what [Channel::stopActivity] does to the channel
    when the activity ids match is written in [Channel.cpp], which is not
    among the sources, and the spec does not settle it.  Its section 4.1
    gives the result only and leaves vacating the channel to the caller;
    its sections 3 and 8 have the observer of a stopped activity drop out,
    which the stop task of the manager does not do by itself; its design
    notes leave the choice open.  Both readings are kept, and a property
    below holds for both unless it names one:
    - [ResultOnly]: the call only returns true;
    - [FocusNone]: the call also sets the focus to [NONE] the way
      [set_focus] does, so that the observer receives [NONE]. *)
Inductive StopEffect := ResultOnly | FocusNone.

#[global] Instance StopEffect_eq_dec : EqDecision StopEffect.
Proof. solve_decision. Defined.

(** ** Channel *)

Module Channel.

Record t := mk {
  m_priority : N;
  m_focusState : FocusState;
  m_observer : option nat;
  m_currentActivityId : string;
}.

(** Modelled from the spec: [Channel.cpp] is not among the sources.
    [new(priority)] gives a channel with focus [NONE], no observer and an
    empty activity id. *)
Definition new (priority : N) : t := mk priority NONE None EmptyString.

(** Modelled from the spec: [get_priority()]. *)
Definition getPriority (ch : t) : N := m_priority ch.

(** Modelled from the spec: [set_focus(state)] is a no-op when [state] is
    the cached focus; otherwise it updates the cached focus and invokes
    the current observer with [state]. *)
Definition setFocus (focus : FocusState) (ch : t) : t * list Output :=
  if decide (focus = m_focusState ch) then (ch, [])
  else (mk (m_priority ch) focus (m_observer ch) (m_currentActivityId ch),
        match m_observer ch with
        | Some o => [onFocusChanged o focus]
        | None => []
        end).

(** Modelled from the spec: [set_observer(obs)] replaces the current
    observer; a previous observer, if any, first receives [NONE] in a
    single callback; the cached focus is left as it is. *)
Definition setObserver (observer : option nat) (ch : t) : t * list Output :=
  (mk (m_priority ch) (m_focusState ch) observer (m_currentActivityId ch),
   match m_observer ch with
   | Some o => [onFocusChanged o NONE]
   | None => []
   end).

(** Modelled from the spec: [set_activity_id(id)] / [get_activity_id()]. *)
Definition setActivityId (activityId : string) (ch : t) : t * list Output :=
  (mk (m_priority ch) (m_focusState ch) (m_observer ch) activityId, []).

Definition getActivityId (ch : t) : string := m_currentActivityId ch.

(** Modelled from the spec: [does_observer_own_channel(obs)] compares the
    identity of [obs] with the current observer. *)
Definition doesObserverOwnChannel (observer : option nat) (ch : t) : bool :=
  bool_decide (observer = m_observer ch).

(** Modelled from the spec: [stop_activity(activity_id)] returns true iff
    the argument equals the channel's current activity id, and has no
    effect when it returns false. *)
Definition stopActivity (activityId : string) (ch : t) : bool :=
  bool_decide (activityId = m_currentActivityId ch).

(** Modelled from the spec: what [stop_activity] does to the channel when
    the ids match, under each of the two readings of [StopEffect]. *)
Definition stopped (effect : StopEffect) (ch : t) : t * list Output :=
  match effect with
  | ResultOnly => (ch, [])
  | FocusNone => setFocus NONE ch
  end.

(** Modelled from the spec: [a > b] iff [a] has the higher priority, and
    the lower number is the higher priority. *)
Definition gt (a b : t) : bool := (m_priority a <? m_priority b)%N.

End Channel.

(** ** The ordered set [std::set<T, Compare>] as a list in iteration order *)

Section OrderedSet.
Context {A : Type} (comp : A → A → bool).

(** [std::set::insert]: nothing is inserted when an equivalent element
    (neither before nor after [x]) is present. *)
Fixpoint set_insert (x : A) (l : list A) : list A :=
  match l with
  | [] => [x]
  | y :: l' =>
      if comp x y then x :: l
      else if comp y x then y :: set_insert x l'
      else l
  end.

(** [std::set::erase(key)]: removes the element equivalent to [x]. *)
Fixpoint set_erase (x : A) (l : list A) : list A :=
  match l with
  | [] => []
  | y :: l' =>
      if comp x y || comp y x then y :: set_erase x l'
      else l'
  end.
End OrderedSet.

(** ** FocusManager *)

Module FocusManager.

(** The closures handed to the executor. *)
Inductive Task :=
  | AcquireTask (channelToAcquire : string) (channelObserver : option nat)
      (activityId : string)
  | ReleaseTask (channelToRelease : string) (channelObserver : option nat)
      (channelName : string)
  | StopTask (foregroundChannel : string) (foregroundChannelActivityId : string).

Record t := mk {
  m_allChannels : gmap string Channel.t;
  m_activeChannels : list string;
  m_executor : list Task;
  outputs : list Output;
}.

Definition emit (os : list Output) (fm : t) : t :=
  mk (m_allChannels fm) (m_activeChannels fm) (m_executor fm) (outputs fm ++ os).

(** A method call [channel->method(...)] on the channel object [c]. *)
Definition call (c : string) (method : Channel.t → Channel.t * list Output)
    (fm : t) : t :=
  match m_allChannels fm !! c with
  | Some ch =>
      mk (<[c := (method ch).1]> (m_allChannels fm)) (m_activeChannels fm)
         (m_executor fm) (outputs fm ++ (method ch).2)
  | None => fm
  end.

Definition setFocus (c : string) (focus : FocusState) : t → t :=
  call c (Channel.setFocus focus).
Definition setObserver (c : string) (observer : option nat) : t → t :=
  call c (Channel.setObserver observer).
Definition setActivityId (c : string) (activityId : string) : t → t :=
  call c (Channel.setActivityId activityId).

(** Dereferencing a channel pointer.  Every pointer the manager holds
    designates a registered channel; the default only makes the lookup
    total. *)
Definition deref (channels : gmap string Channel.t) (c : string) : Channel.t :=
  default (Channel.new 0) (channels !! c).

Definition priorityOf (channels : gmap string Channel.t) (c : string) : N :=
  Channel.getPriority (deref channels c).

(** Modelled from the spec: [ChannelPtrComparator] is declared in the
    header; the active set is ordered highest priority first, so the
    comparator is [*first > *second]. *)
Definition ChannelPtrComparator (channels : gmap string Channel.t)
    (first second : string) : bool :=
  Channel.gt (deref channels first) (deref channels second).

Definition insertActive (c : string) (fm : t) : t :=
  mk (m_allChannels fm)
     (set_insert (ChannelPtrComparator (m_allChannels fm)) c (m_activeChannels fm))
     (m_executor fm) (outputs fm).

Definition eraseActive (c : string) (fm : t) : t :=
  mk (m_allChannels fm)
     (set_erase (ChannelPtrComparator (m_allChannels fm)) c (m_activeChannels fm))
     (m_executor fm) (outputs fm).

(** Modelled from the spec: the executor is a FIFO queue; [submit]
    appends and [submitToFront] prepends. *)
Definition submit (task : Task) (fm : t) : t :=
  mk (m_allChannels fm) (m_activeChannels fm) (m_executor fm ++ [task]) (outputs fm).
Definition submitToFront (task : Task) (fm : t) : t :=
  mk (m_allChannels fm) (m_activeChannels fm) (task :: m_executor fm) (outputs fm).

Definition getChannel (fm : t) (channelName : string) : option string :=
  match m_allChannels fm !! channelName with
  | Some _ => Some channelName
  | None => None
  end.

Definition getHighestPriorityActiveChannelLocked (fm : t) : option string :=
  match m_activeChannels fm with
  | [] => None
  | c :: _ => Some c
  end.

Definition isChannelForegroundedLocked (fm : t) (channel : string) : bool :=
  bool_decide (getHighestPriorityActiveChannelLocked fm = Some channel).

Definition doesChannelNameExist (channels : gmap string Channel.t)
    (name : string) : bool :=
  bool_decide (is_Some (channels !! name)).

Definition doesChannelPriorityExist (channels : gmap string Channel.t)
    (priority : N) : bool :=
  bool_decide (map_Exists (λ _ ch, Channel.getPriority ch = priority) channels).

(** One iteration of the constructor's loop. *)
Definition addChannel (fm : t) (config : ChannelConfiguration) : t :=
  if doesChannelNameExist (m_allChannels fm) (name config) then
    emit [logged (createChannelFailed "channelNameExists" config)] fm
  else if doesChannelPriorityExist (m_allChannels fm) (priority config) then
    emit [logged (createChannelFailed "channelPriorityExists" config)] fm
  else
    mk (<[name config := Channel.new (priority config)]> (m_allChannels fm))
       (m_activeChannels fm) (m_executor fm) (outputs fm).

Definition FocusManager (channelConfigurations : list ChannelConfiguration) : t :=
  fold_left addChannel channelConfigurations (mk ∅ [] [] []).

Definition foregroundHighestPriorityActiveChannel (fm : t) : t :=
  match getHighestPriorityActiveChannelLocked fm with
  | Some channelToForeground => setFocus channelToForeground FOREGROUND fm
  | None => fm
  end.

Definition acquireChannelHelper (channelToAcquire : string)
    (channelObserver : option nat) (activityId : string) (fm : t) : t :=
  let foregroundChannel := getHighestPriorityActiveChannelLocked fm in
  let fm := setActivityId channelToAcquire activityId fm in
  let fm := insertActive channelToAcquire fm in
  let fm := setObserver channelToAcquire channelObserver fm in
  match foregroundChannel with
  | None => setFocus channelToAcquire FOREGROUND fm
  | Some foregroundChannel =>
      if decide (foregroundChannel = channelToAcquire) then
        setFocus channelToAcquire FOREGROUND fm
      else if Channel.gt (deref (m_allChannels fm) channelToAcquire)
                         (deref (m_allChannels fm) foregroundChannel) then
        setFocus channelToAcquire FOREGROUND (setFocus foregroundChannel BACKGROUND fm)
      else
        setFocus channelToAcquire BACKGROUND fm
  end.

Definition doesObserverOwnChannel (fm : t) (c : string)
    (observer : option nat) : bool :=
  match m_allChannels fm !! c with
  | Some ch => Channel.doesObserverOwnChannel observer ch
  | None => false
  end.

Definition releaseChannelHelper (channelToRelease : string)
    (channelObserver : option nat) (name : string) (fm : t) : t :=
  if negb (doesObserverOwnChannel fm channelToRelease channelObserver) then
    emit [logged (releaseChannelHelperFailed "observerDoesNotOwnChannel" name);
          set_value false] fm
  else
    let fm := emit [set_value true] fm in
    let wasForegrounded := isChannelForegroundedLocked fm channelToRelease in
    let fm := eraseActive channelToRelease fm in
    let fm := setFocus channelToRelease NONE fm in
    if wasForegrounded then foregroundHighestPriorityActiveChannel fm else fm.

(** The call [c->stopActivity(activityId)]: its result, and what it does to
    the channel when the result is true. *)
Definition stopActivity (fm : t) (c : string) (activityId : string) : bool :=
  match m_allChannels fm !! c with
  | Some ch => Channel.stopActivity activityId ch
  | None => false
  end.

Definition stopEffect (effect : StopEffect) (c : string) : t → t :=
  call c (Channel.stopped effect).

Definition stopForegroundActivityHelper (effect : StopEffect)
    (foregroundChannel : string) (foregroundChannelActivityId : string)
    (fm : t) : t :=
  if negb (stopActivity fm foregroundChannel foregroundChannelActivityId) then fm
  else
    let fm := stopEffect effect foregroundChannel fm in
    let fm := setActivityId foregroundChannel EmptyString fm in
    let fm := eraseActive foregroundChannel fm in
    foregroundHighestPriorityActiveChannel fm.

Definition getActivityId (fm : t) (c : string) : string :=
  default EmptyString (Channel.getActivityId <$> m_allChannels fm !! c).

(** *** The public entry points (caller's thread) *)

Definition acquireChannel (channelName : string) (channelObserver : option nat)
    (activityId : string) (fm : t) : bool * t :=
  match getChannel fm channelName with
  | None =>
      (false, emit [logged (acquireChannelFailed "channelNotFound" channelName)] fm)
  | Some channelToAcquire =>
      (true, submit (AcquireTask channelToAcquire channelObserver activityId) fm)
  end.

(** The returned future is the promise that the task fulfils later, or
    that is fulfilled at once when the channel is unknown. *)
Definition releaseChannel (channelName : string) (channelObserver : option nat)
    (fm : t) : t :=
  match getChannel fm channelName with
  | None =>
      emit [logged (releaseChannelFailed "channelNotFound" channelName);
            set_value false] fm
  | Some channelToRelease =>
      submit (ReleaseTask channelToRelease channelObserver channelName) fm
  end.

(** The snapshot taken under the mutex. *)
Definition foregroundSnapshot (fm : t) : option Task :=
  match getHighestPriorityActiveChannelLocked fm with
  | None => None
  | Some foregroundChannel =>
      Some (StopTask foregroundChannel (getActivityId fm foregroundChannel))
  end.

Definition stopForegroundActivity (fm : t) : t :=
  match foregroundSnapshot fm with
  | None => emit [logged (stopForegroundActivityFailed "noForegroundActivity")] fm
  | Some task => submitToFront task fm
  end.

(** *** The executor's worker thread *)

Definition runTask (effect : StopEffect) (task : Task) (fm : t) : t :=
  match task with
  | AcquireTask c observer activityId => acquireChannelHelper c observer activityId fm
  | ReleaseTask c observer name => releaseChannelHelper c observer name fm
  | StopTask c activityId => stopForegroundActivityHelper effect c activityId fm
  end.

(** The worker takes the task at the front of the queue and runs it to
    completion. *)
Definition runNext (effect : StopEffect) (fm : t) : t :=
  match m_executor fm with
  | [] => fm
  | task :: rest =>
      runTask effect task
        (mk (m_allChannels fm) (m_activeChannels fm) rest (outputs fm))
  end.

End FocusManager.

Import FocusManager.

(** ** Observations on a manager state *)

Definition focusOf (fm : FocusManager.t) (c : string) : option FocusState :=
  Channel.m_focusState <$> m_allChannels fm !! c.

Definition observerOf (fm : FocusManager.t) (c : string) : option nat :=
  m_allChannels fm !! c ≫= Channel.m_observer.

Definition registered (fm : FocusManager.t) (c : string) : Prop :=
  is_Some (m_allChannels fm !! c).

Definition active (fm : FocusManager.t) (c : string) : Prop :=
  c ∈ m_activeChannels fm.

(** The callback that [Channel::setFocus] delivers when the cached focus
    moves from [old] to [new] under observer [observer]. *)
Definition callback (observer : option nat) (old new : FocusState) : list Output :=
  if decide (new = old) then []
  else match observer with
       | Some o => [onFocusChanged o new]
       | None => []
       end.

(** The focus states an observer has received, oldest first, and the last
    of them. *)
Definition received (o : nat) (outs : list Output) : list FocusState :=
  omap (λ out, match out with
               | onFocusChanged o' focus => if decide (o' = o) then Some focus else None
               | _ => None
               end) outs.

Definition lastReceived (o : nat) (outs : list Output) : option FocusState :=
  last (received o outs).

(** ** Histories: interleavings of callers and the worker *)

(** [stopForegroundActivity] called while the worker is inside a task and
    has not yet reached that task's locked region: the snapshot shows the
    state before the task, and the stop task is queued right behind it. *)
Definition stopForegroundActivityDuringTask (fm : FocusManager.t) : FocusManager.t :=
  match m_executor fm with
  | [] => fm
  | running :: rest =>
      match foregroundSnapshot fm with
      | None => emit [logged (stopForegroundActivityFailed "noForegroundActivity")] fm
      | Some task =>
          FocusManager.mk (m_allChannels fm) (m_activeChannels fm)
            (running :: task :: rest) (outputs fm)
      end
  end.

(** What can happen next: a caller's thread enters one of the public
    methods, or the worker runs the task at the front of the queue. *)
Inductive Call :=
  | CallAcquire (channelName : string) (observer : option nat) (activityId : string)
  | CallRelease (channelName : string) (observer : option nat)
  | CallStop
  | CallStopDuringTask
  | WorkerRuns.

Definition perform (effect : StopEffect) (fm : FocusManager.t) (call : Call)
    : FocusManager.t :=
  match call with
  | CallAcquire n o a => (acquireChannel n o a fm).2
  | CallRelease n o => releaseChannel n o fm
  | CallStop => stopForegroundActivity fm
  | CallStopDuringTask => stopForegroundActivityDuringTask fm
  | WorkerRuns => runNext effect fm
  end.

(** The state reached from construction by a sequence of such events. *)
Definition history (effect : StopEffect) (configs : list ChannelConfiguration)
    (calls : list Call) : FocusManager.t :=
  fold_left (perform effect) calls (FocusManager configs).

(** The channel a task has captured. *)
Definition taskChannel (task : Task) : string :=
  match task with
  | AcquireTask c _ _ => c
  | ReleaseTask c _ _ => c
  | StopTask c _ => c
  end.

(** ** Invariants *)

Definition prio (fm : FocusManager.t) (c : string) : N :=
  priorityOf (m_allChannels fm) c.

(** No two registered channels share a priority. *)
Definition uniquePriorities (channels : gmap string Channel.t) : Prop :=
  ∀ n1 n2 c1 c2,
    channels !! n1 = Some c1 → channels !! n2 = Some c2 →
    Channel.m_priority c1 = Channel.m_priority c2 → n1 = n2.

(** The active set is strictly ordered, highest priority first. *)
Definition ordered (key : string → N) (l : list string) : Prop :=
  StronglySorted (λ a b, (key a < key b)%N) l.

(** The first active channel is in the foreground, the others in the
    background. *)
Definition arbitrated (fm : FocusManager.t) : Prop :=
  match m_activeChannels fm with
  | [] => True
  | top :: rest =>
      focusOf fm top = Some FOREGROUND ∧
      ∀ c, c ∈ rest → focusOf fm c = Some BACKGROUND
  end.

Record wf (fm : FocusManager.t) : Prop := mkWf {
  wf_unique : uniquePriorities (m_allChannels fm);
  wf_registered : ∀ c, active fm c → registered fm c;
  wf_ordered : ordered (prio fm) (m_activeChannels fm);
  wf_queue : ∀ task, task ∈ m_executor fm → registered fm (taskChannel task);
  wf_arbitrated : arbitrated fm;
}.

(** Every registered channel outside the active set has focus [NONE]. *)
Definition vacantNone (fm : FocusManager.t) : Prop :=
  ∀ c, registered fm c → ¬ active fm c → focusOf fm c = Some NONE.

(** The unique-foreground property. *)
Definition uniqueForeground (fm : FocusManager.t) : Prop :=
  (m_activeChannels fm ≠ [] →
   ∃ top, active fm top ∧
     (∀ c, active fm c → (prio fm top ≤ prio fm c)%N) ∧
     focusOf fm top = Some FOREGROUND ∧
     (∀ c, focusOf fm c = Some FOREGROUND → c = top) ∧
     (∀ c, active fm c → c ≠ top → focusOf fm c = Some BACKGROUND)) ∧
  (∀ c, focusOf fm c = Some FOREGROUND → active fm c).

(** The part of it that concerns the active set only. *)
Definition foregroundAmongActive (fm : FocusManager.t) : Prop :=
  m_activeChannels fm ≠ [] →
  ∃ top, active fm top ∧
    (∀ c, active fm c → (prio fm top ≤ prio fm c)%N) ∧
    focusOf fm top = Some FOREGROUND ∧
    (∀ c, active fm c → focusOf fm c = Some FOREGROUND → c = top) ∧
    (∀ c, active fm c → c ≠ top → focusOf fm c = Some BACKGROUND).

(** Active iff the cached focus is not [NONE]. *)
Definition activeIffFocused (fm : FocusManager.t) : Prop :=
  ∀ c ch, m_allChannels fm !! c = Some ch →
    (active fm c ↔ Channel.m_focusState ch ≠ NONE).

(** The same names are registered, with the same priorities. *)
Definition sameRegistry (fm fm' : FocusManager.t) : Prop :=
  ∀ c, Channel.m_priority <$> m_allChannels fm' !! c =
       Channel.m_priority <$> m_allChannels fm !! c.

(** The part of [acquireChannelHelper] that precedes the focus decision:
    the activity id is set, the channel is inserted in the active set, and
    the observer is installed. *)
Definition install (c : string) (o : option nat) (a : string)
    (fm : FocusManager.t) : FocusManager.t :=
  setObserver c o (insertActive c (setActivityId c a fm)).

(** A name, or a priority, that an already inserted channel has. *)
Definition nameTaken (fm : FocusManager.t) (n : string) : Prop :=
  ∃ ch, m_allChannels fm !! n = Some ch.

Definition priorityTaken (fm : FocusManager.t) (p : N) : Prop :=
  ∃ n ch, m_allChannels fm !! n = Some ch ∧ Channel.m_priority ch = p.

(** The entry is inserted as a fresh channel. *)
Definition insertedFresh (fm fm' : FocusManager.t) (config : ChannelConfiguration) : Prop :=
  m_allChannels fm !! name config = None ∧
  m_allChannels fm' = <[name config := Channel.new (priority config)]> (m_allChannels fm).

(** The cached focus that a successful [stopActivity] leaves. *)
Definition stoppedFocus (effect : StopEffect) (focus : FocusState) : FocusState :=
  match effect with
  | ResultOnly => focus
  | FocusNone => NONE
  end.

(** ** The running example: Dialog = 100, Alerts = 200, Content = 300 *)

Definition exampleConfigs : list ChannelConfiguration :=
  [mkConfig "Dialog" 100; mkConfig "Alerts" 200; mkConfig "Content" 300].

Definition singleAcquire : list Call :=
  [CallAcquire "Content" (Some 1) "music"; WorkerRuns].

Definition higherPreempts : list Call :=
  singleAcquire ++ [CallAcquire "Dialog" (Some 2) "tts"; WorkerRuns].

Definition stopForeground : list Call :=
  higherPreempts ++ [CallStop; WorkerRuns].

Definition stopSingle : list Call :=
  singleAcquire ++ [CallStop; WorkerRuns].

(** A stop request whose snapshot is taken while the worker starts a second
    acquire of Content: when the stop task runs, the activity has changed. *)
Definition staleStop : list Call :=
  singleAcquire ++
  [CallAcquire "Content" (Some 2) "news"; CallStopDuringTask; WorkerRuns; WorkerRuns].

(** Observer 1 holds Content and then acquires Dialog as well. *)
Definition sharedObserver : list Call :=
  singleAcquire ++ [CallAcquire "Dialog" (Some 1) "tts"; WorkerRuns].

(** The cached focus of Dialog, Alerts and Content, in this order. *)
Definition focusTable (fm : FocusManager.t) : list (option FocusState) :=
  [focusOf fm "Dialog"; focusOf fm "Alerts"; focusOf fm "Content"].

(** The values given to promises so far, oldest first. *)
Definition fulfilled (outs : list Output) : list bool :=
  omap (λ out, match out with
               | set_value result => Some result
               | _ => None
               end) outs.

Definition isReleaseTask (task : Task) : bool :=
  match task with
  | ReleaseTask _ _ _ => true
  | _ => false
  end.

Definition isReleaseCall (call : Call) : bool :=
  match call with
  | CallRelease _ _ => true
  | _ => false
  end.

(** The release tasks still waiting in the queue. *)
Definition pendingReleases (fm : FocusManager.t) : nat :=
  length (List.filter isReleaseTask (m_executor fm)).

(** A stop request whose snapshot, Content with "music", is taken while the
    worker starts the acquire of Dialog; the stop task is still queued. *)
Definition stopBehind : list Call :=
  singleAcquire ++ [CallAcquire "Dialog" (Some 2) "tts"; CallStopDuringTask; WorkerRuns].

(** ** Facts about the ordered set *)

Section OrderedSetFacts.
Context {A : Type} (key : A → N) (comp : A → A → bool).
Hypothesis comp_key : ∀ x y, comp x y = (key x <? key y)%N.

Local Abbreviation sorted := (StronglySorted (λ a b, (key a < key b)%N)).

Lemma comp_true x y : comp x y = true ↔ (key x < key y)%N.
Proof. rewrite comp_key. apply N.ltb_lt. Qed.

Lemma comp_false x y : comp x y = false ↔ (key y ≤ key x)%N.
Proof. rewrite comp_key. apply N.ltb_ge. Qed.

Lemma set_insert_elem x y l : y ∈ set_insert comp x l → y = x ∨ y ∈ l.
Proof.
  induction l as [|h l IH]; simpl.
  - rewrite list_elem_of_singleton. auto.
  - destruct (comp x h); [|destruct (comp h x)].
    + rewrite !elem_of_cons. naive_solver.
    + rewrite !elem_of_cons. naive_solver.
    + auto.
Qed.

Lemma set_insert_incl x y l : y ∈ l → y ∈ set_insert comp x l.
Proof.
  induction l as [|h l IH]; simpl; [by intros ?%elem_of_nil|].
  destruct (comp x h); [|destruct (comp h x)]; [| |done].
  - rewrite !elem_of_cons. naive_solver.
  - rewrite !elem_of_cons. naive_solver.
Qed.

Lemma set_insert_in x l :
  (∀ y, y ∈ l → key y = key x → y = x) → x ∈ set_insert comp x l.
Proof.
  induction l as [|h l IH]; simpl; intros Hinj; [apply list_elem_of_here|].
  destruct (comp x h) eqn:Hxh; [apply list_elem_of_here|].
  destruct (comp h x) eqn:Hhx.
  - apply list_elem_of_further, IH. intros y Hy. apply Hinj. by apply list_elem_of_further.
  - apply comp_false in Hxh, Hhx.
    rewrite <- (Hinj h); [apply list_elem_of_here | apply list_elem_of_here | lia].
Qed.

Lemma sorted_head_least h l y : sorted (h :: l) → y ∈ h :: l → (key h ≤ key y)%N.
Proof.
  intros Hs [->|Hy]%elem_of_cons; [lia|].
  apply StronglySorted_inv in Hs as [_ Hall].
  rewrite Forall_forall in Hall. specialize (Hall y Hy). lia.
Qed.

Lemma set_insert_sorted x l : sorted l → sorted (set_insert comp x l).
Proof.
  induction l as [|h l IH]; simpl; intros Hs.
  - repeat constructor.
  - destruct (comp x h) eqn:Hxh; [|destruct (comp h x) eqn:Hhx]; [| |done].
    + apply comp_true in Hxh. constructor; [done|].
      apply Forall_forall. intros y Hy.
      pose proof (sorted_head_least _ _ _ Hs Hy). lia.
    + apply comp_true in Hhx.
      pose proof Hs as [Hs' Hall]%StronglySorted_inv.
      constructor; [auto|].
      apply Forall_forall. intros y [->|Hy]%set_insert_elem; [done|].
      rewrite Forall_forall in Hall. auto.
Qed.

Lemma set_insert_present x l : sorted l → x ∈ l → set_insert comp x l = l.
Proof.
  induction l as [|h l IH]; simpl; intros Hs Hx; [by apply elem_of_nil in Hx|].
  destruct (comp x h) eqn:Hxh; [|destruct (comp h x) eqn:Hhx]; [| |done].
  - apply comp_true in Hxh.
    pose proof (sorted_head_least _ _ _ Hs Hx). lia.
  - apply comp_true in Hhx.
    apply elem_of_cons in Hx as [->|Hx]; [lia|].
    apply StronglySorted_inv in Hs as [Hs _]. by rewrite IH.
Qed.

Lemma sorted_NoDup l : sorted l → NoDup l.
Proof.
  induction 1 as [|h l Hs IH Hall]; constructor; [|done].
  intros Hin. rewrite Forall_forall in Hall. specialize (Hall h Hin). lia.
Qed.

Lemma set_erase_absent x l :
  (∀ y, y ∈ l → key y ≠ key x) → set_erase comp x l = l.
Proof.
  induction l as [|h l IH]; simpl; intros Hne; [done|].
  assert (key h ≠ key x) as Hh by (apply Hne, list_elem_of_here).
  destruct (comp x h) eqn:Hxh; simpl.
  - f_equal. apply IH. intros y Hy. by apply Hne, list_elem_of_further.
  - destruct (comp h x) eqn:Hhx.
    + f_equal. apply IH. intros y Hy. by apply Hne, list_elem_of_further.
    + apply comp_false in Hxh, Hhx. lia.
Qed.

Lemma set_erase_elem x y l :
  sorted l → y ∈ set_erase comp x l ↔ y ∈ l ∧ key y ≠ key x.
Proof.
  induction l as [|h l IH]; simpl; intros Hs.
  - split; [by intros ?%elem_of_nil | by intros [?%elem_of_nil _]].
  - pose proof Hs as [Hs' Hall]%StronglySorted_inv.
    rewrite Forall_forall in Hall.
    destruct (comp x h || comp h x) eqn:Hc.
    + assert (key h ≠ key x) as Hh.
      { apply orb_true_iff in Hc as [Hc|Hc]; apply comp_true in Hc; lia. }
      rewrite !elem_of_cons, IH by done. naive_solver.
    + apply orb_false_iff in Hc as [Hxh Hhx].
      apply comp_false in Hxh, Hhx.
      assert (key h = key x) as Hh by lia.
      rewrite elem_of_cons. split.
      * intros Hy. split; [by right|]. specialize (Hall y Hy). lia.
      * intros [[->|Hy] Hne]; [done | done].
Qed.

Lemma set_erase_sorted x l : sorted l → sorted (set_erase comp x l).
Proof.
  induction l as [|h l IH]; simpl; intros Hs; [done|].
  pose proof Hs as [Hs' Hall]%StronglySorted_inv.
  destruct (comp x h || comp h x); [|done].
  constructor; [auto|].
  rewrite Forall_forall in Hall |- *.
  intros y Hy. apply set_erase_elem in Hy as [Hy _]; auto.
Qed.

Lemma set_erase_insert x l :
  sorted l → (∀ y, y ∈ l → key y ≠ key x) →
  set_erase comp x (set_insert comp x l) = l.
Proof.
  induction l as [|h l IH]; simpl; intros Hs Hne.
  - rewrite comp_key, N.ltb_irrefl. done.
  - assert (key h ≠ key x) as Hh by (apply Hne, list_elem_of_here).
    pose proof Hs as [Hs' Hall]%StronglySorted_inv.
    destruct (comp x h) eqn:Hxh; [|destruct (comp h x) eqn:Hhx]; simpl.
    + rewrite (comp_key x x), N.ltb_irrefl. done.
    + rewrite Hxh, Hhx. simpl. f_equal. apply IH; [done|].
      intros y Hy. by apply Hne, list_elem_of_further.
    + apply comp_false in Hxh, Hhx. lia.
Qed.

Lemma set_erase_head_eq x h l : key h = key x → set_erase comp x (h :: l) = l.
Proof.
  intros Hk. simpl. rewrite !comp_key, Hk, N.ltb_irrefl. done.
Qed.

Lemma set_erase_head_ne x h l :
  key h ≠ key x → set_erase comp x (h :: l) = h :: set_erase comp x l.
Proof.
  intros Hk. simpl.
  destruct (comp x h) eqn:Hxh; [done|].
  destruct (comp h x) eqn:Hhx; [done|].
  apply comp_false in Hxh, Hhx. lia.
Qed.

Lemma set_insert_head_lt x h l : (key x < key h)%N → set_insert comp x (h :: l) = x :: h :: l.
Proof. intros Hk. simpl. by rewrite (proj2 (comp_true x h) Hk). Qed.

Lemma set_insert_head_gt x h l :
  (key h < key x)%N → set_insert comp x (h :: l) = h :: set_insert comp x l.
Proof.
  intros Hk. simpl. rewrite (proj2 (comp_true h x) Hk).
  destruct (comp x h) eqn:Hxh; [|done]. apply comp_true in Hxh. lia.
Qed.

Lemma set_insert_others `{EqDecision A} x l :
  filter (λ y, y ≠ x) (set_insert comp x l) = filter (λ y, y ≠ x) l.
Proof.
  induction l as [|h l IH]; simpl.
  - by rewrite filter_cons_False by (by intros []).
  - destruct (comp x h); [|destruct (comp h x)]; [| |done].
    + by rewrite filter_cons_False by (by intros []).
    + by rewrite !(filter_cons _ h), IH.
Qed.

Lemma filter_others `{EqDecision A} x (l : list A) :
  x ∉ l → filter (λ y, y ≠ x) l = l.
Proof.
  induction l as [|h l IH]; [done|].
  intros [Hh Hl]%not_elem_of_cons.
  rewrite filter_cons_True by done. by rewrite IH.
Qed.

Lemma set_erase_others `{EqDecision A} x l :
  sorted l → (∀ y, y ∈ l → key y = key x → y = x) →
  set_erase comp x l = filter (λ y, y ≠ x) l.
Proof.
  induction l as [|h l IH]; simpl; intros Hs Hinj; [done|].
  pose proof Hs as [Hs' Hall]%StronglySorted_inv.
  destruct (decide (key h = key x)) as [Heq|Hne].
  - assert (h = x) as -> by (apply Hinj; [left|done]).
    assert (comp x x || comp x x = false) as ->.
    { apply orb_false_iff. split; apply comp_false; lia. }
    rewrite filter_cons_False by (by intros []).
    symmetry. apply filter_others. intros Hin.
    rewrite Forall_forall in Hall. specialize (Hall x Hin). lia.
  - assert (comp x h || comp h x = true) as ->.
    { apply orb_true_iff. rewrite !comp_true. lia. }
    rewrite filter_cons_True by (intros ->; done).
    rewrite IH; [done|done|]. intros y Hy. apply Hinj. by right.
Qed.

Lemma set_insert_head_eq x h l : key h = key x → set_insert comp x (h :: l) = h :: l.
Proof. intros Hk. simpl. rewrite !comp_key, Hk, N.ltb_irrefl. done. Qed.
End OrderedSetFacts.

(** ** The channel methods *)

Lemma Channel_setFocus_fst focus ch :
  (Channel.setFocus focus ch).1 =
  Channel.mk (Channel.m_priority ch) focus (Channel.m_observer ch)
    (Channel.m_currentActivityId ch).
Proof.
  unfold Channel.setFocus. destruct ch as [p f o a]; simpl.
  case_decide; simpl; congruence.
Qed.

Lemma Channel_setFocus_snd focus ch :
  (Channel.setFocus focus ch).2 =
  callback (Channel.m_observer ch) (Channel.m_focusState ch) focus.
Proof. unfold Channel.setFocus, callback. by case_decide. Qed.

(** ** The primitive state updates *)

Lemma call_active c method fm :
  m_activeChannels (call c method fm) = m_activeChannels fm.
Proof. unfold call. by destruct (m_allChannels fm !! c). Qed.

Lemma call_executor c method fm :
  m_executor (call c method fm) = m_executor fm.
Proof. unfold call. by destruct (m_allChannels fm !! c). Qed.

Lemma call_lookup c method fm c' :
  m_allChannels (call c method fm) !! c' =
  if decide (c' = c) then (λ ch, (method ch).1) <$> m_allChannels fm !! c
  else m_allChannels fm !! c'.
Proof.
  unfold call. destruct (m_allChannels fm !! c) as [ch|] eqn:Hc; simpl.
  - case_decide as Hd; [subst; by rewrite lookup_insert_eq|].
    by rewrite lookup_insert_ne.
  - case_decide; by subst.
Qed.

Lemma call_outputs c method fm :
  outputs (call c method fm) =
  outputs fm ++ from_option (λ ch, (method ch).2) [] (m_allChannels fm !! c).
Proof.
  unfold call. destruct (m_allChannels fm !! c); simpl; [done|].
  by rewrite app_nil_r.
Qed.

Lemma setFocus_lookup c focus fm c' :
  m_allChannels (setFocus c focus fm) !! c' =
  if decide (c' = c) then
    (λ ch, Channel.mk (Channel.m_priority ch) focus (Channel.m_observer ch)
             (Channel.m_currentActivityId ch)) <$> m_allChannels fm !! c
  else m_allChannels fm !! c'.
Proof.
  unfold setFocus. rewrite call_lookup. case_decide; [|done].
  destruct (m_allChannels fm !! c); simpl; [|done].
  by rewrite Channel_setFocus_fst.
Qed.

Lemma setFocus_outputs c focus fm :
  outputs (setFocus c focus fm) =
  outputs fm ++
  from_option (λ ch, callback (Channel.m_observer ch) (Channel.m_focusState ch) focus)
    [] (m_allChannels fm !! c).
Proof.
  unfold setFocus. rewrite call_outputs.
  destruct (m_allChannels fm !! c); simpl; [|done].
  by rewrite Channel_setFocus_snd.
Qed.

Lemma setFocus_same c focus fm :
  focusOf fm c = Some focus → setFocus c focus fm = fm.
Proof.
  unfold focusOf, setFocus, call.
  destruct (m_allChannels fm !! c) as [ch|] eqn:Hc; simpl; [|done].
  intros [= Hf]. unfold Channel.setFocus.
  rewrite decide_True by done. simpl.
  rewrite insert_id by done. rewrite app_nil_r. by destruct fm.
Qed.

Lemma setFocus_active c focus fm :
  m_activeChannels (setFocus c focus fm) = m_activeChannels fm.
Proof. apply call_active. Qed.

Lemma setFocus_executor c focus fm :
  m_executor (setFocus c focus fm) = m_executor fm.
Proof. apply call_executor. Qed.

Lemma setFocus_focusOf c focus fm c' :
  focusOf (setFocus c focus fm) c' =
  if decide (c' = c) then (λ _, focus) <$> m_allChannels fm !! c else focusOf fm c'.
Proof.
  unfold focusOf. rewrite setFocus_lookup. case_decide; [|done].
  by destruct (m_allChannels fm !! c).
Qed.

(** ** Updates that keep the registry *)

Lemma sameRegistry_refl fm : sameRegistry fm fm.
Proof. by intros c. Qed.

Lemma sameRegistry_trans fm1 fm2 fm3 :
  sameRegistry fm1 fm2 → sameRegistry fm2 fm3 → sameRegistry fm1 fm3.
Proof. intros H12 H23 c. by rewrite H23, H12. Qed.

Lemma sameRegistry_call c method fm :
  (∀ ch, Channel.m_priority (method ch).1 = Channel.m_priority ch) →
  sameRegistry fm (call c method fm).
Proof.
  intros Hp c'. rewrite call_lookup. case_decide; [subst|done].
  destruct (m_allChannels fm !! c); simpl; [|done]. by rewrite Hp.
Qed.

Lemma sameRegistry_setFocus c focus fm : sameRegistry fm (setFocus c focus fm).
Proof.
  apply sameRegistry_call. intros ch. by rewrite Channel_setFocus_fst.
Qed.

Lemma sameRegistry_setActivityId c a fm : sameRegistry fm (setActivityId c a fm).
Proof. by apply sameRegistry_call. Qed.

Lemma priorityOf_lookup (channels : gmap string Channel.t) c :
  priorityOf channels c = default 0%N (Channel.m_priority <$> channels !! c).
Proof. unfold priorityOf, deref. by destruct (channels !! c). Qed.

Lemma sameRegistry_prio fm fm' c : sameRegistry fm fm' → prio fm' c = prio fm c.
Proof.
  intros Hs. unfold prio. by rewrite !priorityOf_lookup, Hs.
Qed.

Lemma sameRegistry_registered fm fm' c :
  sameRegistry fm fm' → registered fm' c ↔ registered fm c.
Proof.
  intros Hs. unfold registered. specialize (Hs c).
  rewrite <- !(fmap_is_Some Channel.m_priority). by rewrite Hs.
Qed.

Lemma sameRegistry_unique fm fm' :
  sameRegistry fm fm' → uniquePriorities (m_allChannels fm) →
  uniquePriorities (m_allChannels fm').
Proof.
  intros Hs Hu n1 n2 c1 c2 H1 H2 Hp.
  pose proof (Hs n1) as E1. pose proof (Hs n2) as E2.
  rewrite H1 in E1. rewrite H2 in E2. simpl in *.
  destruct (m_allChannels fm !! n1) as [d1|] eqn:D1; [|done].
  destruct (m_allChannels fm !! n2) as [d2|] eqn:D2; [|done].
  simpl in *. apply (Hu n1 n2 d1 d2); congruence.
Qed.

Lemma sameRegistry_comparator fm fm' x y :
  sameRegistry fm fm' →
  ChannelPtrComparator (m_allChannels fm') x y = (prio fm x <? prio fm y)%N.
Proof.
  intros Hs.
  change (ChannelPtrComparator (m_allChannels fm') x y)
    with (prio fm' x <? prio fm' y)%N.
  by rewrite !(sameRegistry_prio fm fm').
Qed.

Lemma sameRegistry_ordered fm fm' l :
  sameRegistry fm fm' → ordered (prio fm) l → ordered (prio fm') l.
Proof.
  intros Hs. unfold ordered.
  induction 1 as [|h l Hs' IH Hall]; constructor; [done|].
  eapply Forall_impl; [done|]. intros y Hy.
  by rewrite !(sameRegistry_prio fm fm').
Qed.

(** Registered channels are told apart by their priorities. *)
Lemma prio_inj fm c c' :
  uniquePriorities (m_allChannels fm) → registered fm c → registered fm c' →
  prio fm c = prio fm c' → c = c'.
Proof.
  intros Hu [ch Hc] [ch' Hc']. unfold prio. rewrite !priorityOf_lookup.
  rewrite Hc, Hc'. simpl. by apply Hu.
Qed.

(** ** The acquire task *)

Lemma install_lookup c o a fm c' :
  m_allChannels (install c o a fm) !! c' =
  if decide (c' = c) then
    (λ ch, Channel.mk (Channel.m_priority ch) (Channel.m_focusState ch) o a)
      <$> m_allChannels fm !! c
  else m_allChannels fm !! c'.
Proof.
  unfold install, setObserver, setActivityId.
  rewrite call_lookup. simpl. rewrite !call_lookup.
  repeat case_decide; try done. by destruct (m_allChannels fm !! c).
Qed.

Lemma install_sameRegistry c o a fm : sameRegistry fm (install c o a fm).
Proof.
  intros c'. rewrite install_lookup. case_decide; [subst|done].
  by destruct (m_allChannels fm !! c).
Qed.

Lemma install_focusOf c o a fm c' : focusOf (install c o a fm) c' = focusOf fm c'.
Proof.
  unfold focusOf. rewrite install_lookup. case_decide; [subst|done].
  by destruct (m_allChannels fm !! c).
Qed.

Lemma install_active c o a fm :
  m_activeChannels (install c o a fm) =
  set_insert (ChannelPtrComparator (m_allChannels (setActivityId c a fm))) c
    (m_activeChannels fm).
Proof.
  unfold install, setObserver. rewrite call_active. simpl.
  unfold setActivityId. by rewrite call_active.
Qed.

Lemma install_executor c o a fm : m_executor (install c o a fm) = m_executor fm.
Proof.
  unfold install, setObserver, setActivityId.
  rewrite call_executor. simpl. by rewrite call_executor.
Qed.

Lemma install_outputs c o a fm :
  outputs (install c o a fm) =
  outputs fm ++
  from_option (λ ch, (Channel.setObserver o ch).2) [] (m_allChannels fm !! c).
Proof.
  unfold install, setObserver, setActivityId.
  rewrite call_outputs. simpl. rewrite call_outputs, call_lookup.
  case_decide; [|done].
  destruct (m_allChannels fm !! c); simpl; by rewrite ?app_nil_r.
Qed.

Lemma acquire_unfold c o a fm :
  acquireChannelHelper c o a fm =
  match m_activeChannels fm with
  | [] => setFocus c FOREGROUND (install c o a fm)
  | p :: _ =>
      if decide (p = c) then setFocus c FOREGROUND (install c o a fm)
      else if (prio fm c <? prio fm p)%N then
        setFocus c FOREGROUND (setFocus p BACKGROUND (install c o a fm))
      else setFocus c BACKGROUND (install c o a fm)
  end.
Proof.
  unfold acquireChannelHelper, getHighestPriorityActiveChannelLocked.
  fold (install c o a fm).
  destruct (m_activeChannels fm) as [|p l]; [done|].
  case_decide; [done|].
  change (Channel.gt _ _) with
    (ChannelPtrComparator (m_allChannels (install c o a fm)) c p).
  by rewrite (sameRegistry_comparator fm) by apply install_sameRegistry.
Qed.

Lemma acquire_sameRegistry c o a fm : sameRegistry fm (acquireChannelHelper c o a fm).
Proof.
  rewrite acquire_unfold.
  pose proof (install_sameRegistry c o a fm) as Hi.
  destruct (m_activeChannels fm) as [|p l]; [|case_decide; [|case_match]];
    repeat (eapply sameRegistry_trans; [|apply sameRegistry_setFocus]); done.
Qed.

Lemma acquire_active c o a fm :
  m_activeChannels (acquireChannelHelper c o a fm) =
  set_insert (ChannelPtrComparator (m_allChannels (setActivityId c a fm))) c
    (m_activeChannels fm).
Proof.
  rewrite acquire_unfold, <- (install_active c o a fm).
  destruct (m_activeChannels fm) as [|p l]; [|case_decide; [|case_match]];
    by rewrite !setFocus_active.
Qed.

Lemma acquire_executor c o a fm :
  m_executor (acquireChannelHelper c o a fm) = m_executor fm.
Proof.
  rewrite acquire_unfold, <- (install_executor c o a fm).
  destruct (m_activeChannels fm) as [|p l]; [|case_decide; [|case_match]];
    by rewrite !setFocus_executor.
Qed.

Lemma acquire_comparator c a fm x y :
  ChannelPtrComparator (m_allChannels (setActivityId c a fm)) x y =
  (prio fm x <? prio fm y)%N.
Proof. apply sameRegistry_comparator, sameRegistry_setActivityId. Qed.

Lemma setFocus_focusOf_eq c focus fm :
  registered fm c → focusOf (setFocus c focus fm) c = Some focus.
Proof.
  intros [ch Hc]. rewrite setFocus_focusOf, decide_True by done. by rewrite Hc.
Qed.

Lemma setFocus_focusOf_ne c focus fm c' :
  c' ≠ c → focusOf (setFocus c focus fm) c' = focusOf fm c'.
Proof. intros Hne. by rewrite setFocus_focusOf, decide_False. Qed.

Lemma setFocus_registered c focus fm c' :
  registered (setFocus c focus fm) c' ↔ registered fm c'.
Proof. apply sameRegistry_registered, sameRegistry_setFocus. Qed.

Lemma install_registered c o a fm c' :
  registered (install c o a fm) c' ↔ registered fm c'.
Proof. apply sameRegistry_registered, install_sameRegistry. Qed.

(** The focus of every channel after an acquire task. *)
Lemma acquire_focusOf c o a fm c' :
  registered fm c →
  (∀ p, p ∈ m_activeChannels fm → registered fm p) →
  focusOf (acquireChannelHelper c o a fm) c' =
  match m_activeChannels fm with
  | [] => if decide (c' = c) then Some FOREGROUND else focusOf fm c'
  | p :: _ =>
      if decide (p = c) then
        if decide (c' = c) then Some FOREGROUND else focusOf fm c'
      else if (prio fm c <? prio fm p)%N then
        if decide (c' = c) then Some FOREGROUND
        else if decide (c' = p) then Some BACKGROUND
        else focusOf fm c'
      else if decide (c' = c) then Some BACKGROUND else focusOf fm c'
  end.
Proof.
  intros Hc Hact. rewrite acquire_unfold.
  assert (registered (install c o a fm) c) as Hc' by by apply install_registered.
  destruct (m_activeChannels fm) as [|p l].
  - case_decide; [subst; by apply setFocus_focusOf_eq|].
    by rewrite setFocus_focusOf_ne, install_focusOf.
  - assert (registered (install c o a fm) p) as Hp.
    { apply install_registered, Hact. left. }
    case_decide; [|case_match].
    + case_decide; [subst; by apply setFocus_focusOf_eq|].
      by rewrite setFocus_focusOf_ne, install_focusOf.
    + case_decide; [subst; by apply setFocus_focusOf_eq, setFocus_registered|].
      rewrite setFocus_focusOf_ne by done.
      case_decide; [subst; by apply setFocus_focusOf_eq|].
      by rewrite setFocus_focusOf_ne, install_focusOf.
    + case_decide; [subst; by apply setFocus_focusOf_eq|].
      by rewrite setFocus_focusOf_ne, install_focusOf.
Qed.

Lemma ordered_head_least key h l y :
  ordered key (h :: l) → y ∈ l → (key h < key y)%N.
Proof.
  intros [_ Hall]%StronglySorted_inv Hy.
  rewrite Forall_forall in Hall. auto.
Qed.

Lemma acquire_arbitrated c o a fm :
  wf fm → registered fm c → arbitrated (acquireChannelHelper c o a fm).
Proof.
  intros [Hu Hr Ho Hq Ha] Hc. unfold arbitrated.
  pose proof (λ c', acquire_focusOf c o a fm c' Hc Hr) as Hf.
  rewrite acquire_active. unfold arbitrated, active in *.
  destruct (m_activeChannels fm) as [|p l] eqn:Hact.
  - simpl. split; [|by intros r ?%elem_of_nil].
    by rewrite Hf, decide_True.
  - destruct Ha as [Hp Hl].
    assert (registered fm p) as Hrp by (apply Hr; left).
    destruct (decide (p = c)) as [->|Hpc].
    + rewrite (set_insert_head_eq (prio fm)) by (done || apply acquire_comparator).
      split; [by rewrite Hf, decide_True|].
      intros r Hrl. rewrite Hf.
      pose proof (ordered_head_least _ _ _ _ Ho Hrl).
      rewrite decide_False by (intros ->; lia). auto.
    + destruct (prio fm c <? prio fm p)%N eqn:Hlt.
      * apply N.ltb_lt in Hlt.
        rewrite (set_insert_head_lt (prio fm)) by (done || apply acquire_comparator).
        split; [by rewrite Hf, decide_True|].
        intros r Hrl. rewrite Hf.
        apply elem_of_cons in Hrl as [->|Hrl].
        -- rewrite decide_False by done. by rewrite decide_True.
        -- pose proof (ordered_head_least _ _ _ _ Ho Hrl).
           rewrite decide_False by (intros ->; lia).
           case_decide; [done|auto].
      * apply N.ltb_ge in Hlt.
        assert (prio fm p < prio fm c)%N as Hgt.
        { destruct (decide (prio fm p = prio fm c)) as [Heq|]; [|lia].
          by apply prio_inj in Heq. }
        rewrite (set_insert_head_gt (prio fm)) by (done || apply acquire_comparator).
        split; [by rewrite Hf, decide_False|].
        intros r Hrl. rewrite Hf.
        case_decide; [done|].
        apply set_insert_elem in Hrl as [->|Hrl]; [done|auto].
Qed.

Lemma wf_acquire c o a fm :
  wf fm → registered fm c → wf (acquireChannelHelper c o a fm).
Proof.
  intros Hwf Hc. pose proof Hwf as [Hu Hr Ho Hq Ha].
  pose proof (acquire_sameRegistry c o a fm) as Hs.
  split.
  - by eapply sameRegistry_unique.
  - intros c'. unfold active. rewrite acquire_active.
    intros [->|Hin]%set_insert_elem; apply (sameRegistry_registered _ _ _ Hs); auto.
  - apply (sameRegistry_ordered _ _ _ Hs). rewrite acquire_active.
    apply (set_insert_sorted (prio fm)); [apply acquire_comparator|done].
  - intros task. rewrite acquire_executor. intros Ht.
    apply (sameRegistry_registered _ _ _ Hs). auto.
  - by apply acquire_arbitrated.
Qed.

(** ** Promotion of the first active channel *)

Lemma foreground_unfold fm :
  foregroundHighestPriorityActiveChannel fm =
  match m_activeChannels fm with
  | [] => fm
  | q :: _ => setFocus q FOREGROUND fm
  end.
Proof.
  unfold foregroundHighestPriorityActiveChannel, getHighestPriorityActiveChannelLocked.
  by destruct (m_activeChannels fm).
Qed.

Lemma foreground_sameRegistry fm :
  sameRegistry fm (foregroundHighestPriorityActiveChannel fm).
Proof.
  rewrite foreground_unfold. destruct (m_activeChannels fm).
  - apply sameRegistry_refl.
  - apply sameRegistry_setFocus.
Qed.

Lemma foreground_active fm :
  m_activeChannels (foregroundHighestPriorityActiveChannel fm) = m_activeChannels fm.
Proof.
  rewrite foreground_unfold. destruct (m_activeChannels fm) eqn:E; [done|].
  by rewrite setFocus_active.
Qed.

Lemma foreground_executor fm :
  m_executor (foregroundHighestPriorityActiveChannel fm) = m_executor fm.
Proof.
  rewrite foreground_unfold. destruct (m_activeChannels fm); [done|].
  by rewrite setFocus_executor.
Qed.

(** ** The release task *)

Lemma doesObserverOwnChannel_registered fm c o :
  doesObserverOwnChannel fm c o = true → registered fm c.
Proof.
  unfold doesObserverOwnChannel, registered.
  destruct (m_allChannels fm !! c); [by eexists|done].
Qed.

Lemma doesObserverOwnChannel_observer fm c o :
  doesObserverOwnChannel fm c o = true ↔
  ∃ ch, m_allChannels fm !! c = Some ch ∧ Channel.m_observer ch = o.
Proof.
  unfold doesObserverOwnChannel, Channel.doesObserverOwnChannel.
  destruct (m_allChannels fm !! c) as [ch|]; [|naive_solver].
  rewrite bool_decide_eq_true. naive_solver.
Qed.

Lemma release_rejected c o n fm :
  doesObserverOwnChannel fm c o = false →
  releaseChannelHelper c o n fm =
  emit [logged (releaseChannelHelperFailed "observerDoesNotOwnChannel" n);
        set_value false] fm.
Proof. intros Hown. unfold releaseChannelHelper. by rewrite Hown. Qed.

Lemma release_unfold c o n fm :
  doesObserverOwnChannel fm c o = true →
  releaseChannelHelper c o n fm =
  let vacated := setFocus c NONE (eraseActive c (emit [set_value true] fm)) in
  match m_activeChannels fm with
  | [] => vacated
  | p :: _ =>
      if decide (p = c) then foregroundHighestPriorityActiveChannel vacated
      else vacated
  end.
Proof.
  intros Hown. unfold releaseChannelHelper. rewrite Hown. simpl.
  unfold isChannelForegroundedLocked, getHighestPriorityActiveChannelLocked. simpl.
  destruct (m_activeChannels fm) as [|p l]; [done|].
  case_bool_decide as Hd; case_decide; naive_solver.
Qed.

Lemma release_sameRegistry c o n fm : sameRegistry fm (releaseChannelHelper c o n fm).
Proof.
  destruct (doesObserverOwnChannel fm c o) eqn:Hown.
  - rewrite release_unfold by done. simpl.
    assert (sameRegistry fm (setFocus c NONE (eraseActive c (emit [set_value true] fm)))).
    { eapply sameRegistry_trans; [|apply sameRegistry_setFocus]. by intros c'. }
    destruct (m_activeChannels fm); [done|]. case_decide; [|done].
    eapply sameRegistry_trans; [done|apply foreground_sameRegistry].
  - rewrite release_rejected by done. by intros c'.
Qed.

Lemma release_active c o n fm :
  doesObserverOwnChannel fm c o = true →
  m_activeChannels (releaseChannelHelper c o n fm) =
  set_erase (ChannelPtrComparator (m_allChannels fm)) c (m_activeChannels fm).
Proof.
  intros Hown. rewrite release_unfold by done. simpl.
  destruct (m_activeChannels fm) eqn:Hact; [|case_decide];
    rewrite ?foreground_active, setFocus_active; simpl; by rewrite Hact.
Qed.

Lemma release_executor c o n fm :
  m_executor (releaseChannelHelper c o n fm) = m_executor fm.
Proof.
  destruct (doesObserverOwnChannel fm c o) eqn:Hown.
  - rewrite release_unfold by done. simpl.
    destruct (m_activeChannels fm); [|case_decide];
      by rewrite ?foreground_executor, setFocus_executor.
  - by rewrite release_rejected.
Qed.

Lemma comparator_prio fm x y :
  ChannelPtrComparator (m_allChannels fm) x y = (prio fm x <? prio fm y)%N.
Proof. done. Qed.

(** The focus of every channel after a release by the owner. *)
Lemma release_focusOf c o n fm c' :
  wf fm → doesObserverOwnChannel fm c o = true →
  focusOf (releaseChannelHelper c o n fm) c' =
  match m_activeChannels fm with
  | p :: q :: _ =>
      if decide (p = c) then
        if decide (c' = c) then Some NONE
        else if decide (c' = q) then Some FOREGROUND
        else focusOf fm c'
      else if decide (c' = c) then Some NONE else focusOf fm c'
  | _ => if decide (c' = c) then Some NONE else focusOf fm c'
  end.
Proof.
  intros [Hu Hr Ho Hq Ha] Hown.
  pose proof (doesObserverOwnChannel_registered _ _ _ Hown) as Hc.
  rewrite release_unfold by done. simpl.
  set (erased := eraseActive c (emit [set_value true] fm)).
  assert (registered erased c) as Hc' by done.
  assert (∀ x, focusOf (setFocus c NONE erased) x =
               if decide (x = c) then Some NONE else focusOf fm x) as Hv.
  { intros x. case_decide; [subst; by apply setFocus_focusOf_eq|].
    by rewrite setFocus_focusOf_ne. }
  unfold active in *.
  destruct (m_activeChannels fm) as [|p l] eqn:Hact; [apply Hv|].
  case_decide as Hpc; [subst p|by destruct l].
  rewrite foreground_unfold, setFocus_active. subst erased. simpl.
  rewrite Hact, (set_erase_head_eq (prio fm)) by (done || apply comparator_prio).
  destruct l as [|q l]; [apply Hv|].
  assert (q ≠ c) as Hqc.
  { pose proof (ordered_head_least _ c (q :: l) q Ho). intros ->.
    assert (prio fm c < prio fm c)%N by (apply H; left). lia. }
  case_decide; [subst; by rewrite setFocus_focusOf_ne, Hv, decide_True|].
  case_decide.
  - subst. apply setFocus_focusOf_eq, setFocus_registered.
    apply Hr. right; left.
  - by rewrite setFocus_focusOf_ne, Hv, decide_False.
Qed.

Lemma ordered_NoDup key l : ordered key l → NoDup l.
Proof. apply sorted_NoDup. Qed.

Lemma ordered_tail key h l : ordered key (h :: l) → ordered key l.
Proof. by intros [? _]%StronglySorted_inv. Qed.

Lemma release_arbitrated c o n fm :
  wf fm → doesObserverOwnChannel fm c o = true →
  arbitrated (releaseChannelHelper c o n fm).
Proof.
  intros Hwf Hown. pose proof Hwf as [Hu Hr Ho Hq Ha].
  pose proof (λ c', release_focusOf c o n fm c' Hwf Hown) as Hf.
  pose proof (doesObserverOwnChannel_registered _ _ _ Hown) as Hc.
  unfold arbitrated, active in *. rewrite release_active by done.
  destruct (m_activeChannels fm) as [|p l] eqn:Hact; [done|].
  destruct Ha as [Hp Hl].
  destruct (decide (p = c)) as [->|Hpc].
  - rewrite (set_erase_head_eq (prio fm)) by (done || apply comparator_prio).
    destruct l as [|q l]; [done|].
    assert (q ≠ c) as Hqc.
    { intros ->. pose proof (ordered_head_least _ c (c :: l) c Ho).
      assert (prio fm c < prio fm c)%N by (apply H; left). lia. }
    split; [by rewrite Hf, decide_False, decide_True|].
    intros r Hrl.
    assert (r ≠ q).
    { intros ->. apply ordered_tail in Ho.
      pose proof (ordered_head_least _ _ _ _ Ho Hrl). lia. }
    assert (r ≠ c).
    { intros ->. assert (c ∈ q :: l) as Hin by by right.
      pose proof (ordered_head_least _ _ _ _ Ho Hin). lia. }
    rewrite Hf, !decide_False by done. apply Hl. by right.
  - assert (prio fm p ≠ prio fm c).
    { intros Heq. apply Hpc, (prio_inj fm); [done|apply Hr; left|done|done]. }
    rewrite (set_erase_head_ne (prio fm)) by (done || apply comparator_prio).
    assert (∀ x, focusOf (releaseChannelHelper c o n fm) x =
                 if decide (x = c) then Some NONE else focusOf fm x) as Hf'.
    { intros x. rewrite Hf. by destruct l. }
    split; [by rewrite Hf', decide_False|].
    intros r Hrl.
    apply (set_erase_elem (prio fm)) in Hrl as [Hrl Hne];
      [|apply comparator_prio|by eapply ordered_tail].
    rewrite Hf', decide_False by (intros ->; done). auto.
Qed.

Lemma wf_emit os fm : wf fm → wf (emit os fm).
Proof. by intros [Hu Hr Ho Hq Ha]. Qed.

Lemma wf_release c o n fm : wf fm → wf (releaseChannelHelper c o n fm).
Proof.
  intros Hwf. destruct (doesObserverOwnChannel fm c o) eqn:Hown;
    [|rewrite release_rejected by done; by apply wf_emit].
  pose proof Hwf as [Hu Hr Ho Hq Ha].
  pose proof (release_sameRegistry c o n fm) as Hs.
  split.
  - by eapply sameRegistry_unique.
  - intros c'. unfold active. rewrite release_active by done.
    intros [Hin _]%(set_erase_elem (prio fm)); [|apply comparator_prio|done].
    apply (sameRegistry_registered _ _ _ Hs). auto.
  - apply (sameRegistry_ordered _ _ _ Hs). rewrite release_active by done.
    apply (set_erase_sorted (prio fm)); [apply comparator_prio|done].
  - intros task. rewrite release_executor. intros Ht.
    apply (sameRegistry_registered _ _ _ Hs). auto.
  - by apply release_arbitrated.
Qed.

(** ** The stop task *)

Lemma Channel_stopped_fst effect ch :
  (Channel.stopped effect ch).1 =
  Channel.mk (Channel.m_priority ch) (stoppedFocus effect (Channel.m_focusState ch))
    (Channel.m_observer ch) (Channel.m_currentActivityId ch).
Proof.
  destruct effect; simpl; [by destruct ch|apply Channel_setFocus_fst].
Qed.

Lemma Channel_stopped_snd effect ch :
  (Channel.stopped effect ch).2 =
  callback (Channel.m_observer ch) (Channel.m_focusState ch)
    (stoppedFocus effect (Channel.m_focusState ch)).
Proof.
  destruct effect; simpl; [|apply Channel_setFocus_snd].
  unfold callback. by rewrite decide_True.
Qed.

Lemma stopEffect_lookup effect c fm c' :
  m_allChannels (stopEffect effect c fm) !! c' =
  if decide (c' = c) then
    (λ ch, Channel.mk (Channel.m_priority ch)
             (stoppedFocus effect (Channel.m_focusState ch))
             (Channel.m_observer ch) (Channel.m_currentActivityId ch))
    <$> m_allChannels fm !! c
  else m_allChannels fm !! c'.
Proof.
  unfold stopEffect. rewrite call_lookup. case_decide; [|done].
  destruct (m_allChannels fm !! c); simpl; [|done].
  by rewrite Channel_stopped_fst.
Qed.

Lemma stopEffect_outputs effect c fm :
  outputs (stopEffect effect c fm) =
  outputs fm ++
  from_option
    (λ ch, callback (Channel.m_observer ch) (Channel.m_focusState ch)
             (stoppedFocus effect (Channel.m_focusState ch)))
    [] (m_allChannels fm !! c).
Proof.
  unfold stopEffect. rewrite call_outputs.
  destruct (m_allChannels fm !! c); simpl; [|done].
  by rewrite Channel_stopped_snd.
Qed.

Lemma stopEffect_active effect c fm :
  m_activeChannels (stopEffect effect c fm) = m_activeChannels fm.
Proof. apply call_active. Qed.

Lemma stopEffect_executor effect c fm :
  m_executor (stopEffect effect c fm) = m_executor fm.
Proof. apply call_executor. Qed.

Lemma sameRegistry_stopEffect effect c fm : sameRegistry fm (stopEffect effect c fm).
Proof.
  apply sameRegistry_call. intros ch. by rewrite Channel_stopped_fst.
Qed.

Lemma stopEffect_focusOf effect c fm c' :
  focusOf (stopEffect effect c fm) c' =
  if decide (c' = c) then stoppedFocus effect <$> focusOf fm c else focusOf fm c'.
Proof.
  unfold focusOf. rewrite stopEffect_lookup. case_decide; [|done].
  by destruct (m_allChannels fm !! c).
Qed.

Lemma stopEffect_observerOf effect c fm c' :
  observerOf (stopEffect effect c fm) c' = observerOf fm c'.
Proof.
  unfold observerOf. rewrite stopEffect_lookup. case_decide; [subst|done].
  by destruct (m_allChannels fm !! c).
Qed.

Lemma stopEffect_registered effect c fm c' :
  registered (stopEffect effect c fm) c' ↔ registered fm c'.
Proof. apply sameRegistry_registered, sameRegistry_stopEffect. Qed.

Lemma stop_rejected effect c a fm :
  stopActivity fm c a = false → stopForegroundActivityHelper effect c a fm = fm.
Proof. intros Hs. unfold stopForegroundActivityHelper. by rewrite Hs. Qed.

Lemma stop_unfold effect c a fm :
  stopActivity fm c a = true →
  stopForegroundActivityHelper effect c a fm =
  foregroundHighestPriorityActiveChannel
    (eraseActive c (setActivityId c EmptyString (stopEffect effect c fm))).
Proof. intros Hs. unfold stopForegroundActivityHelper. by rewrite Hs. Qed.

Lemma stop_sameRegistry effect c a fm :
  sameRegistry fm (stopForegroundActivityHelper effect c a fm).
Proof.
  destruct (stopActivity fm c a) eqn:Hs.
  - rewrite stop_unfold by done.
    eapply sameRegistry_trans; [|apply foreground_sameRegistry].
    eapply sameRegistry_trans; [apply (sameRegistry_stopEffect effect c)|].
    intros c'. apply (sameRegistry_setActivityId c EmptyString).
  - rewrite stop_rejected by done. apply sameRegistry_refl.
Qed.

Lemma stop_comparator effect c a fm x y :
  ChannelPtrComparator (m_allChannels (setActivityId c a (stopEffect effect c fm))) x y =
  (prio fm x <? prio fm y)%N.
Proof.
  rewrite acquire_comparator.
  by rewrite !(sameRegistry_prio fm _ _ (sameRegistry_stopEffect effect c fm)).
Qed.

Lemma stop_active effect c a fm :
  stopActivity fm c a = true →
  m_activeChannels (stopForegroundActivityHelper effect c a fm) =
  set_erase
    (ChannelPtrComparator
       (m_allChannels (setActivityId c EmptyString (stopEffect effect c fm))))
    c (m_activeChannels fm).
Proof.
  intros Hs. rewrite stop_unfold, foreground_active by done. simpl.
  unfold setActivityId. by rewrite call_active, stopEffect_active.
Qed.

Lemma stop_executor effect c a fm :
  m_executor (stopForegroundActivityHelper effect c a fm) = m_executor fm.
Proof.
  destruct (stopActivity fm c a) eqn:Hs.
  - rewrite stop_unfold, foreground_executor by done. simpl.
    unfold setActivityId. by rewrite call_executor, stopEffect_executor.
  - by rewrite stop_rejected.
Qed.

Lemma setActivityId_focusOf c a fm c' :
  focusOf (setActivityId c a fm) c' = focusOf fm c'.
Proof.
  unfold focusOf, setActivityId. rewrite call_lookup.
  case_decide; [subst|done]. by destruct (m_allChannels fm !! c).
Qed.

(** The focus of every channel after a stop task: besides what
    [stopActivity] itself does to the stopped channel, only the channel
    that is first in the remaining active set is touched. *)
Lemma stop_focusOf effect c a fm c' :
  (∀ p, active fm p → registered fm p) →
  focusOf (stopForegroundActivityHelper effect c a fm) c' =
  if stopActivity fm c a then
    match m_activeChannels (stopForegroundActivityHelper effect c a fm) with
    | q :: _ =>
        if decide (c' = q) then Some FOREGROUND
        else focusOf (stopEffect effect c fm) c'
    | [] => focusOf (stopEffect effect c fm) c'
    end
  else focusOf fm c'.
Proof.
  intros Hr. destruct (stopActivity fm c a) eqn:Hs;
    [|by rewrite stop_rejected].
  rewrite stop_unfold, foreground_active by done.
  rewrite foreground_unfold.
  set (erased := eraseActive c (setActivityId c EmptyString (stopEffect effect c fm))).
  assert (∀ x, focusOf erased x = focusOf (stopEffect effect c fm) x) as He.
  { intros x. apply (setActivityId_focusOf c EmptyString). }
  destruct (m_activeChannels erased) as [|q l] eqn:Hact; [apply He|].
  case_decide.
  - subst. apply setFocus_focusOf_eq.
    apply (sameRegistry_registered (stopEffect effect c fm));
      [apply sameRegistry_setActivityId|].
    apply stopEffect_registered, Hr. unfold active.
    assert (q ∈ m_activeChannels erased) as Hin by (rewrite Hact; left).
    subst erased. simpl in Hin. unfold setActivityId in Hin.
    rewrite call_active, stopEffect_active in Hin.
    clear -Hin. induction (m_activeChannels fm) as [|h t IH]; simpl in *; [done|].
    destruct (_ || _); [|by right].
    apply elem_of_cons in Hin as [->|Hin]; [left | right; auto].
  - by rewrite setFocus_focusOf_ne, He.
Qed.

(** A channel that stays active after a stop task is not the stopped one. *)
Lemma stop_active_other effect c a fm c' :
  wf fm → stopActivity fm c a = true →
  active (stopForegroundActivityHelper effect c a fm) c' ↔ active fm c' ∧ c' ≠ c.
Proof.
  intros Hwf Hs. pose proof Hwf as [Hu Hr Ho Hq Ha].
  assert (registered fm c) as Hc.
  { unfold stopActivity, registered in *. destruct (m_allChannels fm !! c); by eauto. }
  unfold active. rewrite stop_active by done.
  rewrite (set_erase_elem (prio fm)) by (done || apply stop_comparator).
  split; intros [Hin Hne]; (split; [done|]).
  - by intros ->.
  - intros Heq. apply Hne, (prio_inj fm); auto.
Qed.

Lemma stop_arbitrated effect c a fm :
  wf fm → stopActivity fm c a = true →
  arbitrated (stopForegroundActivityHelper effect c a fm).
Proof.
  intros Hwf Hs. pose proof Hwf as [Hu Hr Ho Hq Ha].
  pose proof (λ c', stop_focusOf effect c a fm c' Hr) as Hf.
  pose proof (stop_active_other effect c a fm) as Hother.
  rewrite Hs in Hf. unfold arbitrated, active in *.
  destruct (m_activeChannels (stopForegroundActivityHelper effect c a fm))
    as [|q rest] eqn:Hact'; [done|].
  split; [by rewrite Hf, decide_True|].
  intros r Hrl.
  assert (r ∈ m_activeChannels fm ∧ r ≠ c) as [Hr_active Hrc].
  { apply Hother; [done..|]. by right. }
  assert (q ∈ m_activeChannels fm ∧ q ≠ c) as [Hq_active Hqc].
  { apply Hother; [done..|]. left. }
  assert (r ≠ q) as Hrq.
  { assert (NoDup (q :: rest)) as Hnd.
    { rewrite <- Hact', stop_active by done.
      eapply ordered_NoDup, (set_erase_sorted (prio fm));
        [apply stop_comparator|done]. }
    apply NoDup_cons in Hnd as [Hq_rest _]. by intros ->. }
  rewrite Hf, decide_False by done.
  rewrite stopEffect_focusOf, decide_False by done.
  destruct (m_activeChannels fm) as [|p l] eqn:Hact; [by apply elem_of_nil in Hr_active|].
  destruct Ha as [Hp Hl].
  apply elem_of_cons in Hr_active as [->|Hr_active]; [|by apply Hl].
  exfalso.
  assert (ordered (prio fm) (q :: rest)) as Ho'.
  { rewrite <- Hact', stop_active, Hact by done.
    apply (set_erase_sorted (prio fm)); [apply stop_comparator|done]. }
  pose proof (ordered_head_least _ _ _ _ Ho' Hrl) as Hlt.
  apply elem_of_cons in Hq_active as [->|Hq_active]; [done|].
  pose proof (ordered_head_least _ _ _ _ Ho Hq_active). lia.
Qed.

Lemma wf_stop effect c a fm : wf fm → wf (stopForegroundActivityHelper effect c a fm).
Proof.
  intros Hwf. destruct (stopActivity fm c a) eqn:Hstop;
    [|by rewrite stop_rejected].
  pose proof Hwf as [Hu Hr Ho Hq Ha].
  pose proof (stop_sameRegistry effect c a fm) as Hs.
  split.
  - by eapply sameRegistry_unique.
  - intros c'. unfold active. rewrite stop_active by done.
    intros [Hin _]%(set_erase_elem (prio fm)); [|apply stop_comparator|done].
    apply (sameRegistry_registered _ _ _ Hs). auto.
  - apply (sameRegistry_ordered _ _ _ Hs). rewrite stop_active by done.
    apply (set_erase_sorted (prio fm)); [apply stop_comparator|done].
  - intros task. rewrite stop_executor. intros Ht.
    apply (sameRegistry_registered _ _ _ Hs). auto.
  - by apply stop_arbitrated.
Qed.

(** ** Every task keeps the state well formed *)

Lemma wf_runTask effect task fm :
  wf fm → registered fm (taskChannel task) → wf (runTask effect task fm).
Proof.
  intros Hwf Hreg. destruct task; simpl in *.
  - by apply wf_acquire.
  - by apply wf_release.
  - by apply wf_stop.
Qed.

Lemma wf_queue_change fm q :
  wf fm → (∀ task, task ∈ q → registered fm (taskChannel task)) →
  wf (FocusManager.mk (m_allChannels fm) (m_activeChannels fm) q (outputs fm)).
Proof. intros [Hu Hr Ho Hq Ha] Hq'. by split. Qed.

Lemma getChannel_Some fm n c : getChannel fm n = Some c → c = n ∧ registered fm n.
Proof.
  unfold getChannel, registered.
  destruct (m_allChannels fm !! n); [|done]. intros [= <-]. eauto.
Qed.

Lemma foregroundSnapshot_registered fm task :
  wf fm → foregroundSnapshot fm = Some task → registered fm (taskChannel task).
Proof.
  intros Hwf. unfold foregroundSnapshot, getHighestPriorityActiveChannelLocked.
  destruct (m_activeChannels fm) as [|p l] eqn:Hact; [done|].
  intros [= <-]. simpl. apply (wf_registered _ Hwf). unfold active.
  rewrite Hact. left.
Qed.

Lemma wf_perform effect fm call : wf fm → wf (perform effect fm call).
Proof.
  intros Hwf. pose proof (wf_queue _ Hwf) as Hq.
  destruct call as [n o a|n o| | |]; simpl.
  - unfold acquireChannel. destruct (getChannel fm n) as [c|] eqn:Hg; simpl.
    + apply getChannel_Some in Hg as [-> Hreg].
      apply wf_queue_change; [done|].
      intros task [Ht| ->%list_elem_of_singleton]%elem_of_app; auto.
    + by apply wf_emit.
  - unfold releaseChannel. destruct (getChannel fm n) as [c|] eqn:Hg; simpl.
    + apply getChannel_Some in Hg as [-> Hreg].
      apply wf_queue_change; [done|].
      intros task [Ht| ->%list_elem_of_singleton]%elem_of_app; auto.
    + by apply wf_emit.
  - unfold stopForegroundActivity.
    destruct (foregroundSnapshot fm) as [task|] eqn:Hsnap; [|by apply wf_emit].
    apply wf_queue_change; [done|].
    intros t [->|Ht]%elem_of_cons; [by eapply foregroundSnapshot_registered|auto].
  - unfold stopForegroundActivityDuringTask.
    destruct (m_executor fm) as [|running rest] eqn:Hex; [done|].
    destruct (foregroundSnapshot fm) as [task|] eqn:Hsnap; [|by apply wf_emit].
    apply wf_queue_change; [done|].
    intros t. rewrite !elem_of_cons.
    intros [->|[->|Ht]]; [|by eapply foregroundSnapshot_registered|].
    + apply Hq. left.
    + apply Hq. by right.
  - unfold runNext. destruct (m_executor fm) as [|task rest] eqn:Hex; [done|].
    apply wf_runTask.
    + apply wf_queue_change; [done|]. intros t Ht. apply Hq. by right.
    + apply Hq. left.
Qed.

(** ** The constructor *)

Lemma doesChannelNameExist_true fm n :
  doesChannelNameExist (m_allChannels fm) n = true ↔ nameTaken fm n.
Proof. unfold doesChannelNameExist. by rewrite bool_decide_eq_true. Qed.

Lemma doesChannelPriorityExist_true fm p :
  doesChannelPriorityExist (m_allChannels fm) p = true ↔ priorityTaken fm p.
Proof.
  unfold doesChannelPriorityExist. rewrite bool_decide_eq_true.
  unfold map_Exists, priorityTaken, Channel.getPriority. done.
Qed.

Lemma addChannel_cases fm config :
  (nameTaken fm (name config) ∧
   addChannel fm config =
   emit [logged (createChannelFailed "channelNameExists" config)] fm) ∨
  (¬ nameTaken fm (name config) ∧ priorityTaken fm (priority config) ∧
   addChannel fm config =
   emit [logged (createChannelFailed "channelPriorityExists" config)] fm) ∨
  (¬ nameTaken fm (name config) ∧ ¬ priorityTaken fm (priority config) ∧
   addChannel fm config =
   FocusManager.mk (<[name config := Channel.new (priority config)]> (m_allChannels fm))
     (m_activeChannels fm) (m_executor fm) (outputs fm)).
Proof.
  unfold addChannel.
  destruct (doesChannelNameExist _ _) eqn:Hn.
  { left. by apply doesChannelNameExist_true in Hn. }
  right. assert (¬ nameTaken fm (name config)) as Hn'.
  { rewrite <- doesChannelNameExist_true. by rewrite Hn. }
  destruct (doesChannelPriorityExist _ _) eqn:Hp.
  { left. by apply doesChannelPriorityExist_true in Hp. }
  right. split; [done|]. split; [|done].
  rewrite <- doesChannelPriorityExist_true. by rewrite Hp.
Qed.

Lemma not_nameTaken fm n : ¬ nameTaken fm n ↔ m_allChannels fm !! n = None.
Proof. unfold nameTaken. rewrite eq_None_not_Some. done. Qed.

Lemma addChannel_unique fm config :
  uniquePriorities (m_allChannels fm) →
  uniquePriorities (m_allChannels (addChannel fm config)).
Proof.
  intros Hu.
  destruct (addChannel_cases fm config) as [[_ ->]|[(_ & _ & ->)|(Hn & Hp & ->)]];
    [done..|]. simpl.
  intros n1 n2 c1 c2. rewrite !lookup_insert.
  repeat case_decide; simplify_eq; try done.
  - intros [= <-] H2 Heq. destruct Hp. by exists n2, c2.
  - intros H1 [= <-] Heq. destruct Hp. by exists n1, c1.
  - apply Hu.
Qed.

Lemma addChannel_idle fm config :
  m_activeChannels (addChannel fm config) = m_activeChannels fm ∧
  m_executor (addChannel fm config) = m_executor fm.
Proof.
  by destruct (addChannel_cases fm config) as [[_ ->]|[(_ & _ & ->)|(_ & _ & ->)]].
Qed.

Lemma constructor_app before after :
  FocusManager (before ++ after) = fold_left addChannel after (FocusManager before).
Proof. unfold FocusManager. apply fold_left_app. Qed.

Lemma constructor_snoc before config :
  FocusManager (before ++ [config]) = addChannel (FocusManager before) config.
Proof. by rewrite constructor_app. Qed.

Lemma constructor_invariant configs :
  uniquePriorities (m_allChannels (FocusManager configs)) ∧
  m_activeChannels (FocusManager configs) = [] ∧
  m_executor (FocusManager configs) = [].
Proof.
  induction configs as [|config configs IH] using rev_ind.
  - split; [|done]. intros n1 n2 c1 c2. simpl. by rewrite lookup_empty.
  - rewrite constructor_snoc. destruct IH as (Hu & Ha & He).
    destruct (addChannel_idle (FocusManager configs) config) as [-> ->].
    split; [by apply addChannel_unique|done].
Qed.

Lemma wf_constructor configs : wf (FocusManager configs).
Proof.
  destruct (constructor_invariant configs) as (Hu & Ha & He).
  split; unfold active, ordered, arbitrated; rewrite ?Ha, ?He; try done.
  - by intros c ?%elem_of_nil.
  - constructor.
  - by intros t ?%elem_of_nil.
Qed.

Lemma history_snoc effect configs calls call :
  history effect configs (calls ++ [call]) =
  perform effect (history effect configs calls) call.
Proof. unfold history. by rewrite fold_left_app. Qed.

Lemma wf_history effect configs calls : wf (history effect configs calls).
Proof.
  induction calls as [|call calls IH] using rev_ind.
  - apply wf_constructor.
  - rewrite history_snoc. by apply wf_perform.
Qed.

(** The channel table is decided by the channel table alone. *)
Lemma addChannel_channels fm1 fm2 config :
  m_allChannels fm1 = m_allChannels fm2 →
  m_allChannels (addChannel fm1 config) = m_allChannels (addChannel fm2 config).
Proof.
  intros Heq. unfold addChannel. rewrite Heq.
  by repeat case_match.
Qed.

Lemma constructor_channels configs fm1 fm2 :
  m_allChannels fm1 = m_allChannels fm2 →
  m_allChannels (fold_left addChannel configs fm1) =
  m_allChannels (fold_left addChannel configs fm2).
Proof.
  revert fm1 fm2. induction configs as [|config configs IH]; intros fm1 fm2 Heq;
    [done|].
  simpl. by apply IH, addChannel_channels.
Qed.

Lemma uniquePriorities_NoDup (channels : gmap string Channel.t) :
  uniquePriorities channels →
  NoDup ((λ entry, Channel.m_priority entry.2) <$> map_to_list channels).
Proof.
  intros Hu. apply NoDup_fmap_2_strong; [|apply NoDup_map_to_list].
  intros [n1 c1] [n2 c2] H1%elem_of_map_to_list H2%elem_of_map_to_list Heq.
  simpl in Heq. assert (n1 = n2) as -> by by eapply Hu.
  congruence.
Qed.

Lemma prio_lookup fm c ch :
  m_allChannels fm !! c = Some ch → prio fm c = Channel.m_priority ch.
Proof. intros Hc. unfold prio. by rewrite priorityOf_lookup, Hc. Qed.

Lemma setFocus_lookup_eq c focus fm ch :
  m_allChannels fm !! c = Some ch →
  m_allChannels (setFocus c focus fm) !! c =
  Some (Channel.mk (Channel.m_priority ch) focus (Channel.m_observer ch)
          (Channel.m_currentActivityId ch)).
Proof. intros Hc. by rewrite setFocus_lookup, decide_True, Hc. Qed.

Lemma setFocus_lookup_ne c focus fm c' :
  c' ≠ c → m_allChannels (setFocus c focus fm) !! c' = m_allChannels fm !! c'.
Proof. intros Hne. by rewrite setFocus_lookup, decide_False. Qed.

Lemma setFocus_outputs_eq c focus fm ch :
  m_allChannels fm !! c = Some ch →
  outputs (setFocus c focus fm) =
  outputs fm ++ callback (Channel.m_observer ch) (Channel.m_focusState ch) focus.
Proof. intros Hc. by rewrite setFocus_outputs, Hc. Qed.

(** ** Channels outside the active set *)

Lemma acquire_in_active c o a fm :
  wf fm → registered fm c → active (acquireChannelHelper c o a fm) c.
Proof.
  intros [Hu Hr Ho Hq Ha] Hc. unfold active. rewrite acquire_active.
  apply (set_insert_in (prio fm)); [apply acquire_comparator|].
  intros y Hy Heq. apply (prio_inj fm); auto.
Qed.

Lemma vacantNone_acquire c o a fm :
  wf fm → registered fm c → vacantNone fm →
  vacantNone (acquireChannelHelper c o a fm).
Proof.
  intros Hwf Hc Hv c' Hreg Hna.
  pose proof Hwf as [Hu Hr Ho Hq Ha].
  apply (sameRegistry_registered fm) in Hreg; [|apply acquire_sameRegistry].
  assert (c' ≠ c) as Hne.
  { intros ->. by apply Hna, acquire_in_active. }
  assert (¬ active fm c') as Hna'.
  { intros Hin. apply Hna. unfold active in *. rewrite acquire_active.
    by apply set_insert_incl. }
  pose proof (Hv c' Hreg Hna') as Hnone.
  rewrite acquire_focusOf by done. unfold active in *.
  destruct (m_activeChannels fm) as [|p l] eqn:Hact.
  - by rewrite decide_False.
  - assert (c' ≠ p) as Hnp by (intros ->; apply Hna'; left).
    repeat case_match; done.
Qed.

Lemma vacantNone_release c o n fm :
  wf fm → vacantNone fm → vacantNone (releaseChannelHelper c o n fm).
Proof.
  intros Hwf Hv.
  destruct (doesObserverOwnChannel fm c o) eqn:Hown;
    [|by rewrite release_rejected].
  intros c' Hreg Hna.
  pose proof Hwf as [Hu Hr Ho Hq Ha].
  pose proof (doesObserverOwnChannel_registered _ _ _ Hown) as Hc.
  apply (sameRegistry_registered fm) in Hreg; [|apply release_sameRegistry].
  unfold active in Hna. rewrite release_active in Hna by done.
  rewrite (set_erase_elem (prio fm)) in Hna by (done || apply comparator_prio).
  assert (c' ≠ c → ¬ active fm c') as Hna'.
  { intros Hne Hin. apply Hna. split; [done|].
    intros Heq. apply Hne, (prio_inj fm); auto. }
  rewrite release_focusOf by done.
  destruct (decide (c' = c)) as [->|Hne].
  { repeat case_match; done. }
  specialize (Hna' Hne). pose proof (Hv c' Hreg Hna') as Hnone.
  unfold active in *.
  destruct (m_activeChannels fm) as [|p [|q l]] eqn:Hact; try done.
  case_decide; [|done].
  case_decide; [|done].
  subst. destruct Hna'. right; left.
Qed.

Lemma vacantNone_same fm fm' :
  m_allChannels fm' = m_allChannels fm →
  m_activeChannels fm' = m_activeChannels fm →
  vacantNone fm → vacantNone fm'.
Proof.
  intros Hch Hact Hv c. unfold registered, active, focusOf.
  rewrite Hch, Hact. apply Hv.
Qed.

(** When [stopActivity] sets the focus to [NONE], the stop task leaves no
    focus behind either. *)
Lemma vacantNone_stop c a fm :
  wf fm → vacantNone fm →
  vacantNone (stopForegroundActivityHelper FocusNone c a fm).
Proof.
  intros Hwf Hv. destruct (stopActivity fm c a) eqn:Hs; [|by rewrite stop_rejected].
  intros c' Hreg Hna'.
  apply (sameRegistry_registered fm) in Hreg; [|apply stop_sameRegistry].
  assert (c' ≠ c → ¬ active fm c') as Hna.
  { intros Hne Hin. by apply Hna', stop_active_other. }
  rewrite stop_focusOf by apply Hwf. rewrite Hs.
  assert (focusOf (stopEffect FocusNone c fm) c' = Some NONE) as Hnone.
  { rewrite stopEffect_focusOf. case_decide as Hd.
    - subst. destruct Hreg as [ch Hc]. unfold focusOf. by rewrite Hc.
    - by apply Hv, Hna. }
  destruct (m_activeChannels _) as [|q rest] eqn:Hact'; [done|].
  rewrite decide_False; [done|].
  intros ->. apply Hna'. unfold active. rewrite Hact'. left.
Qed.

Lemma vacantNone_perform fm call :
  wf fm → vacantNone fm → vacantNone (perform FocusNone fm call).
Proof.
  intros Hwf Hv.
  destruct call as [n o a|n o| | |]; simpl in *.
  - apply (vacantNone_same fm); [..|done];
      unfold acquireChannel; by destruct (getChannel fm n).
  - apply (vacantNone_same fm); [..|done];
      unfold releaseChannel; by destruct (getChannel fm n).
  - apply (vacantNone_same fm); [..|done];
      unfold stopForegroundActivity; by destruct (foregroundSnapshot fm).
  - apply (vacantNone_same fm); [..|done];
      unfold stopForegroundActivityDuringTask;
      by destruct (m_executor fm), (foregroundSnapshot fm).
  - unfold runNext. pose proof (wf_queue _ Hwf) as Hreg.
    destruct (m_executor fm) as [|task rest] eqn:Hex; [done|].
    assert (registered fm (taskChannel task)) as Ht by (apply Hreg; left).
    set (fm0 := FocusManager.mk _ _ rest _).
    assert (wf fm0) as Hwf0.
    { apply wf_queue_change; [done|]. intros t Hin. apply Hreg. by right. }
    assert (vacantNone fm0) as Hv0 by by apply (vacantNone_same fm).
    destruct task as [c o a|c o n|c a]; simpl in *.
    + by apply vacantNone_acquire.
    + by apply vacantNone_release.
    + by apply vacantNone_stop.
Qed.

Lemma vacantNone_constructor configs : vacantNone (FocusManager configs).
Proof.
  intros c [ch Hc] _. unfold focusOf. rewrite Hc. simpl. f_equal.
  revert c ch Hc.
  induction configs as [|config configs IH] using rev_ind; intros c ch.
  - simpl. by rewrite lookup_empty.
  - rewrite constructor_snoc.
    destruct (addChannel_cases (FocusManager configs) config)
      as [[_ ->]|[(_ & _ & ->)|(_ & _ & ->)]]; simpl; [apply IH..|].
    rewrite lookup_insert. case_decide; [by intros [= <-]|apply IH].
Qed.

Lemma vacantNone_history configs calls :
  vacantNone (history FocusNone configs calls).
Proof.
  induction calls as [|call calls IH] using rev_ind.
  - apply vacantNone_constructor.
  - rewrite history_snoc. apply vacantNone_perform; [apply wf_history|done].
Qed.

(** ** From the invariants to the stated properties *)

Lemma wf_foregroundAmongActive fm : wf fm → foregroundAmongActive fm.
Proof.
  intros [Hu Hr Ho Hq Ha] Hne. unfold arbitrated, active in *.
  destruct (m_activeChannels fm) as [|top rest] eqn:Hact; [done|].
  destruct Ha as [Htop Hrest]. exists top.
  split; [left|]. split; [|split; [done|split]].
  - intros c [->|Hc]%elem_of_cons; [lia|].
    pose proof (ordered_head_least _ _ _ _ Ho Hc). lia.
  - intros c [->|Hc]%elem_of_cons; [done|]. rewrite (Hrest c Hc). done.
  - intros c [->|Hc]%elem_of_cons; [done|]. auto.
Qed.

Lemma focusOf_registered fm c focus : focusOf fm c = Some focus → registered fm c.
Proof.
  unfold focusOf, registered. destruct (m_allChannels fm !! c); [by eexists|done].
Qed.

Lemma wf_uniqueForeground fm : wf fm → vacantNone fm → uniqueForeground fm.
Proof.
  intros Hwf Hv.
  assert (∀ c, focusOf fm c = Some FOREGROUND → active fm c) as Hfg.
  { intros c Hc. destruct (decide (c ∈ m_activeChannels fm)) as [|Hn]; [done|].
    rewrite (Hv c) in Hc; [done|by eapply focusOf_registered|done]. }
  split; [|done]. intros Hne.
  destruct (wf_foregroundAmongActive fm Hwf Hne) as (top & Ht & Hleast & Hf & Hu & Hb).
  exists top. repeat split; auto.
Qed.

Lemma wf_activeIffFocused fm : wf fm → vacantNone fm → activeIffFocused fm.
Proof.
  intros Hwf Hv c ch Hc.
  assert (focusOf fm c = Some (Channel.m_focusState ch)) as Hf.
  { unfold focusOf. by rewrite Hc. }
  split.
  - intros Hact Hnone. pose proof (wf_arbitrated _ Hwf) as Ha.
    unfold arbitrated, active in *.
    destruct (m_activeChannels fm) as [|top rest]; [by apply elem_of_nil in Hact|].
    destruct Ha as [Htop Hrest]. rewrite Hnone in Hf.
    apply elem_of_cons in Hact as [->|Hact]; [congruence|].
    rewrite (Hrest c Hact) in Hf. done.
  - intros Hfocus. destruct (decide (c ∈ m_activeChannels fm)) as [|Hn]; [done|].
    rewrite (Hv c) in Hf; [congruence|by eexists|done].
Qed.

Lemma wf_active_focused fm c ch :
  wf fm → m_allChannels fm !! c = Some ch → active fm c →
  Channel.m_focusState ch ≠ NONE.
Proof.
  intros Hwf Hc Hact Hnone.
  assert (focusOf fm c = Some NONE) as Hf.
  { unfold focusOf. by rewrite Hc, <- Hnone. }
  pose proof (wf_arbitrated _ Hwf) as Ha. unfold arbitrated, active in *.
  destruct (m_activeChannels fm) as [|top rest]; [by apply elem_of_nil in Hact|].
  destruct Ha as [Htop Hrest].
  apply elem_of_cons in Hact as [->|Hact]; [congruence|].
  rewrite (Hrest c Hact) in Hf. done.
Qed.

(** ** What observers receive *)

Lemma received_app o l1 l2 : received o (l1 ++ l2) = received o l1 ++ received o l2.
Proof. apply omap_app. Qed.

Lemma received_callback_own o old new :
  new ≠ old → received o (callback (Some o) old new) = [new].
Proof.
  intros Hne. unfold callback. rewrite decide_False by done.
  simpl. by rewrite decide_True.
Qed.

Lemma lastReceived_app o l1 l2 :
  received o l2 = [] → lastReceived o (l1 ++ l2) = lastReceived o l1.
Proof.
  intros Hl. unfold lastReceived. by rewrite received_app, Hl, app_nil_r.
Qed.

Lemma lastReceived_told o before old new :
  new ≠ old →
  lastReceived o (before ++ [set_value true] ++ callback (Some o) old new) = Some new.
Proof.
  intros Hne. unfold lastReceived.
  rewrite !received_app, received_callback_own by done. simpl.
  apply last_snoc.
Qed.

(** ** The release task, in detail *)

Lemma owner_doesObserverOwnChannel fm c ch :
  m_allChannels fm !! c = Some ch →
  doesObserverOwnChannel fm c (Channel.m_observer ch) = true.
Proof. intros Hc. apply doesObserverOwnChannel_observer. eauto. Qed.

Lemma prio_ne fm c c' :
  wf fm → registered fm c → registered fm c' → c ≠ c' → prio fm c ≠ prio fm c'.
Proof. intros Hwf Hc Hc' Hne Heq. apply Hne, (prio_inj fm); auto. apply Hwf. Qed.

Lemma release_active_iff c o n fm c' :
  wf fm → doesObserverOwnChannel fm c o = true →
  active (releaseChannelHelper c o n fm) c' ↔ active fm c' ∧ c' ≠ c.
Proof.
  intros Hwf Hown. pose proof Hwf as [Hu Hr Ho Hq Ha].
  pose proof (doesObserverOwnChannel_registered _ _ _ Hown) as Hc.
  unfold active. rewrite release_active by done.
  rewrite (set_erase_elem (prio fm)) by (done || apply comparator_prio).
  split; intros [Hin Hne]; (split; [done|]).
  - by intros ->.
  - apply prio_ne; auto.
Qed.

(** The state right after the released channel is taken out of the active
    set and told [NONE]. *)
Lemma vacated_lookup c fm ch os :
  m_allChannels fm !! c = Some ch →
  let vacated := setFocus c NONE (eraseActive c (emit os fm)) in
  m_allChannels vacated !! c =
    Some (Channel.mk (Channel.m_priority ch) NONE (Channel.m_observer ch)
            (Channel.m_currentActivityId ch)) ∧
  (∀ c', c' ≠ c → m_allChannels vacated !! c' = m_allChannels fm !! c') ∧
  outputs vacated =
    outputs fm ++ os ++ callback (Channel.m_observer ch) (Channel.m_focusState ch) NONE ∧
  m_activeChannels vacated =
    set_erase (ChannelPtrComparator (m_allChannels fm)) c (m_activeChannels fm).
Proof.
  intros Hc vacated. subst vacated.
  assert (m_allChannels (eraseActive c (emit os fm)) !! c = Some ch) as Hc' by done.
  split; [|split; [|split]].
  - by rewrite (setFocus_lookup_eq _ _ _ _ Hc').
  - intros c' Hne. by rewrite setFocus_lookup_ne.
  - rewrite (setFocus_outputs_eq _ _ _ _ Hc'). simpl. by rewrite app_assoc.
  - by rewrite setFocus_active.
Qed.

Lemma release_effects c n fm ch :
  wf fm → m_allChannels fm !! c = Some ch →
  let o := Channel.m_observer ch in
  let fm' := releaseChannelHelper c o n fm in
  let told :=
    outputs fm ++ [set_value true] ++ callback o (Channel.m_focusState ch) NONE in
  (∀ c', active fm' c' ↔ active fm c' ∧ c' ≠ c) ∧
  m_allChannels fm' !! c =
    Some (Channel.mk (Channel.m_priority ch) NONE o (Channel.m_currentActivityId ch)) ∧
  (getHighestPriorityActiveChannelLocked fm = Some c →
     match getHighestPriorityActiveChannelLocked fm' with
     | Some q =>
         focusOf fm' q = Some FOREGROUND ∧
         (∀ c', c' ≠ c → c' ≠ q → m_allChannels fm' !! c' = m_allChannels fm !! c') ∧
         outputs fm' =
           told ++ from_option (λ oq, [onFocusChanged oq FOREGROUND]) [] (observerOf fm q)
     | None =>
         (∀ c', c' ≠ c → m_allChannels fm' !! c' = m_allChannels fm !! c') ∧
         outputs fm' = told
     end) ∧
  (getHighestPriorityActiveChannelLocked fm ≠ Some c →
     (∀ c', c' ≠ c → m_allChannels fm' !! c' = m_allChannels fm !! c') ∧
     outputs fm' = told) ∧
  (Channel.m_focusState ch = NONE → outputs fm' = outputs fm ++ [set_value true]) ∧
  (∀ obs, o = Some obs → Channel.m_focusState ch ≠ NONE →
     lastReceived obs (outputs fm') =
     Some (if decide (getHighestPriorityActiveChannelLocked fm = Some c ∧
                      getHighestPriorityActiveChannelLocked fm' ≫= observerOf fm =
                      Some obs)
           then FOREGROUND else NONE)).
Proof.
  intros Hwf Hc o fm' told.
  pose proof (owner_doesObserverOwnChannel _ _ _ Hc) as Hown. fold o in Hown.
  pose proof Hwf as [Hu Hr Ho Hq Ha].
  destruct (vacated_lookup c fm ch [set_value true] Hc) as (Hvc & Hvo & Hvout & Hvact).
  fold o told in Hvc, Hvout.
  set (vacated := setFocus c NONE (eraseActive c (emit [set_value true] fm))) in *.
  assert (getHighestPriorityActiveChannelLocked fm ≠ Some c →
          fm' = vacated) as Hnot.
  { intros Hne. subst fm'. rewrite release_unfold by done. simpl.
    unfold getHighestPriorityActiveChannelLocked in Hne.
    destruct (m_activeChannels fm); [done|]. case_decide; [congruence|done]. }
  assert (getHighestPriorityActiveChannelLocked fm = Some c →
          ∃ rest, m_activeChannels fm = c :: rest ∧ m_activeChannels fm' = rest ∧
          fm' = foregroundHighestPriorityActiveChannel vacated) as Htop.
  { intros Heq. unfold getHighestPriorityActiveChannelLocked in Heq.
    destruct (m_activeChannels fm) as [|p rest] eqn:Hact; [done|].
    injection Heq as ->. exists rest. split; [done|].
    subst fm'. rewrite release_active, release_unfold by done. simpl.
    rewrite Hact, decide_True by done. split; [|done].
    by rewrite (set_erase_head_eq (prio fm)) by (done || apply comparator_prio). }
  assert (getHighestPriorityActiveChannelLocked fm = Some c →
     match getHighestPriorityActiveChannelLocked fm' with
     | Some q =>
         focusOf fm' q = Some FOREGROUND ∧
         (∀ c', c' ≠ c → c' ≠ q → m_allChannels fm' !! c' = m_allChannels fm !! c') ∧
         outputs fm' =
           told ++ from_option (λ oq, [onFocusChanged oq FOREGROUND]) [] (observerOf fm q)
     | None =>
         (∀ c', c' ≠ c → m_allChannels fm' !! c' = m_allChannels fm !! c') ∧
         outputs fm' = told
     end) as Hpromote.
  { intros (rest & Hact & Hact' & Hfm)%Htop.
    unfold getHighestPriorityActiveChannelLocked. rewrite Hact'.
    rewrite Hfm, foreground_unfold, Hvact, Hact.
    rewrite (set_erase_head_eq (prio fm)) by (done || apply comparator_prio).
    destruct rest as [|q rest]; [done|].
    assert (q ≠ c) as Hqc.
    { intros ->. rewrite Hact in Ho.
      assert (c ∈ c :: rest) as Hin by left.
      pose proof (ordered_head_least _ _ _ _ Ho Hin). lia. }
    assert (active fm q) as Hq_active by (unfold active; rewrite Hact; right; left).
    destruct (Hr q Hq_active) as [qch Hqch].
    assert (focusOf fm q = Some BACKGROUND) as Hqf.
    { unfold arbitrated in Ha. rewrite Hact in Ha. apply Ha. left. }
    assert (Channel.m_focusState qch = BACKGROUND) as Hqb.
    { unfold focusOf in Hqf. rewrite Hqch in Hqf. by injection Hqf. }
    assert (m_allChannels vacated !! q = Some qch) as Hvq by by rewrite Hvo.
    split; [|split].
    - apply setFocus_focusOf_eq. by eexists.
    - intros c' Hne1 Hne2. by rewrite setFocus_lookup_ne, Hvo.
    - rewrite (setFocus_outputs_eq _ _ _ _ Hvq), Hvout, Hqb.
      unfold observerOf. rewrite Hqch. simpl. by destruct (Channel.m_observer qch). }
  split; [|split; [|split; [|split; [|split]]]].
  - intros c'. by apply release_active_iff.
  - destruct (decide (getHighestPriorityActiveChannelLocked fm = Some c)) as [Heq|Hne].
    + destruct (Htop Heq) as (rest & Hact & Hact' & Hfm).
      rewrite Hfm, foreground_unfold.
      destruct (m_activeChannels vacated) as [|q l] eqn:Hq'; [done|].
      rewrite setFocus_lookup_ne; [done|].
      intros <-. rewrite Hact in Hvact, Ho.
      rewrite (set_erase_head_eq (prio fm)) in Hvact by (done || apply comparator_prio).
      rewrite <- Hvact in Ho.
      assert (c ∈ c :: l) as Hin by left.
      pose proof (ordered_head_least _ _ _ _ Ho Hin). lia.
    + by rewrite (Hnot Hne).
  - done.
  - intros Hne. by rewrite (Hnot Hne).
  - intros Hnone. rewrite Hnot, Hvout.
    + subst told. unfold callback. rewrite decide_True by done.
      by rewrite app_nil_r.
    + unfold getHighestPriorityActiveChannelLocked.
      destruct (m_activeChannels fm) as [|p rest] eqn:Hact; [done|].
      intros [= ->]. apply (wf_active_focused fm c ch); [done..| |done].
      unfold active. rewrite Hact. left.
  - intros obs Hobs Hfocus.
    assert (lastReceived obs told = Some NONE) as Hlast.
    { subst told. rewrite Hobs. by apply lastReceived_told. }
    destruct (decide (getHighestPriorityActiveChannelLocked fm = Some c)) as [Heq|Hne].
    + specialize (Hpromote Heq).
      destruct (getHighestPriorityActiveChannelLocked fm') as [q|] eqn:Hq'; simpl.
      * destruct Hpromote as (_ & _ & ->).
        destruct (decide (observerOf fm q = Some obs)) as [Hqo|Hqo].
        -- rewrite decide_True by done. rewrite Hqo. simpl.
           unfold lastReceived. rewrite received_app. simpl.
           rewrite decide_True by done. apply last_snoc.
        -- rewrite decide_False by (by intros [_ ?]).
           rewrite lastReceived_app; [done|].
           destruct (observerOf fm q) as [oq|]; [|done]. simpl.
           rewrite decide_False; [done|congruence].
      * destruct Hpromote as [_ ->]. by rewrite decide_False by (by intros [_ ?]).
    + rewrite decide_False by (by intros [? _]). by rewrite (Hnot Hne), Hvout.
Qed.

Lemma set_erase_ext {A} (comp comp' : A → A → bool) x l :
  (∀ a b, comp a b = comp' a b) → set_erase comp x l = set_erase comp' x l.
Proof.
  intros Hext. induction l as [|h l IH]; simpl; [done|].
  by rewrite !Hext, IH.
Qed.

(** ** Observers and activity ids across an acquire *)

Lemma acquire_lookup_acquired c o a fm ch :
  m_allChannels fm !! c = Some ch →
  ∃ focus, focus ≠ NONE ∧
    m_allChannels (acquireChannelHelper c o a fm) !! c =
    Some (Channel.mk (Channel.m_priority ch) focus o a).
Proof.
  intros Hc. rewrite acquire_unfold.
  assert (m_allChannels (install c o a fm) !! c =
          Some (Channel.mk (Channel.m_priority ch) (Channel.m_focusState ch) o a)) as Hic.
  { by rewrite install_lookup, decide_True, Hc. }
  destruct (m_activeChannels fm) as [|p l]; [|case_decide; [|case_match]].
  - exists FOREGROUND. by rewrite (setFocus_lookup_eq _ _ _ _ Hic).
  - exists FOREGROUND. by rewrite (setFocus_lookup_eq _ _ _ _ Hic).
  - exists FOREGROUND. split; [done|].
    assert (m_allChannels (setFocus p BACKGROUND (install c o a fm)) !! c =
            Some (Channel.mk (Channel.m_priority ch) (Channel.m_focusState ch) o a))
      as Hbc by (rewrite setFocus_lookup_ne; [done|congruence]).
    by rewrite (setFocus_lookup_eq _ _ _ _ Hbc).
  - exists BACKGROUND. by rewrite (setFocus_lookup_eq _ _ _ _ Hic).
Qed.

Lemma setFocus_observerOf c focus fm c' :
  observerOf (setFocus c focus fm) c' = observerOf fm c'.
Proof.
  unfold observerOf. rewrite setFocus_lookup. case_decide; [subst|done].
  by destruct (m_allChannels fm !! c).
Qed.

Lemma acquire_observerOf_other c o a fm c' :
  c' ≠ c → observerOf (acquireChannelHelper c o a fm) c' = observerOf fm c'.
Proof.
  intros Hne.
  assert (observerOf (install c o a fm) c' = observerOf fm c') as Hi.
  { unfold observerOf. by rewrite install_lookup, decide_False. }
  rewrite acquire_unfold.
  destruct (m_activeChannels fm) as [|p l]; [|case_decide; [|case_match]];
    by rewrite !setFocus_observerOf.
Qed.

(** ** Acquire followed by release *)

Lemma acquire_release_active c o o' a n fm :
  wf fm → registered fm c → ¬ active fm c →
  doesObserverOwnChannel (acquireChannelHelper c o a fm) c o' = true →
  m_activeChannels (releaseChannelHelper c o' n (acquireChannelHelper c o a fm)) =
  m_activeChannels fm.
Proof.
  intros Hwf Hc Hna Hown. pose proof Hwf as [Hu Hr Ho Hq Ha].
  rewrite release_active, acquire_active by done.
  rewrite (set_erase_ext _
    (ChannelPtrComparator (m_allChannels (setActivityId c a fm)))).
  - apply (set_erase_insert (prio fm)); [apply acquire_comparator|done|].
    intros y Hy Heq. apply Hna.
    by rewrite <- (prio_inj fm y c) by auto.
  - intros x y. rewrite acquire_comparator.
    apply sameRegistry_comparator, acquire_sameRegistry.
Qed.

(** Acquire followed by release, as tasks: the active set loses the
    channel, if it held it, and the observer receives [NONE] and then, if
    the release promotes a channel that it also observes, [FOREGROUND]. *)
Lemma acquire_release_roundtrip_tasks c o a n fm :
  wf fm → registered fm c →
  let fm' := releaseChannelHelper c (Some o) n (acquireChannelHelper c (Some o) a fm) in
  let others := filter (λ x, x ≠ c) (m_activeChannels fm) in
  m_activeChannels fm' = others ∧
  lastReceived o (outputs fm') =
  Some match others with
       | p :: _ =>
           if decide ((prio fm c < prio fm p)%N ∧ observerOf fm p = Some o)
           then FOREGROUND else NONE
       | [] => NONE
       end.
Proof.
  intros Hwf Hreg fm' others. destruct Hreg as [ch Hc].
  destruct (acquire_lookup_acquired c (Some o) a fm ch Hc) as (focus & Hfocus & Hc1).
  pose proof (acquire_sameRegistry c (Some o) a fm) as Hsame.
  pose proof (acquire_in_active c (Some o) a fm Hwf (ex_intro _ ch Hc)) as Hin.
  pose proof (acquire_active c (Some o) a fm) as Hact1.
  pose proof (λ p, acquire_observerOf_other c (Some o) a fm p) as Hobs.
  set (fm1 := acquireChannelHelper c (Some o) a fm) in *.
  assert (wf fm1) as Hwf1 by (apply wf_acquire; [done|by eexists]).
  assert (doesObserverOwnChannel fm1 c (Some o) = true) as Hown.
  { apply doesObserverOwnChannel_observer. eauto. }
  assert (filter (λ x, x ≠ c) (m_activeChannels fm1) = others) as Hothers.
  { rewrite Hact1. apply set_insert_others. }
  assert (m_activeChannels fm' = others) as Hact'.
  { rewrite <- Hothers. subst fm'. rewrite release_active by done.
    apply (set_erase_others (prio fm1)); [apply comparator_prio|apply Hwf1|].
    intros y Hy Heq.
    apply (prio_inj fm1); [apply Hwf1|by apply (wf_registered _ Hwf1)|by eexists|done]. }
  split; [done|].
  destruct (release_effects c n fm1 _ Hwf1 Hc1) as (_ & _ & _ & _ & _ & Hlast).
  specialize (Hlast o eq_refl Hfocus). simpl in Hlast. fold fm' in Hlast.
  rewrite Hlast. clear Hlast. f_equal.
  unfold getHighestPriorityActiveChannelLocked. rewrite Hact'.
  pose proof (wf_ordered _ Hwf1) as Ho1. unfold active in Hin.
  destruct (m_activeChannels fm1) as [|h t]; [by apply elem_of_nil in Hin|].
  pose proof Ho1 as [_ Hall]%StronglySorted_inv. rewrite Forall_forall in Hall.
  destruct (decide (h = c)) as [->|Hhc].
  - rewrite filter_cons_False in Hothers by (by intros []).
    assert (c ∉ t) as Hct by (intros Hct; specialize (Hall c Hct); lia).
    rewrite filter_others in Hothers by done. subst t.
    destruct others as [|p rest]; simpl.
    + by rewrite decide_False by (by intros [_ ?]).
    + assert (p ≠ c) as Hpc by (intros ->; apply Hct; left).
      assert (prio fm c < prio fm p)%N as Hlt.
      { rewrite <- !(sameRegistry_prio fm fm1) by done. apply Hall. left. }
      rewrite Hobs by done.
      destruct (decide (observerOf fm p = Some o)) as [Hp|Hp].
      * by rewrite !decide_True.
      * by rewrite !decide_False by (by intros [_ ?]).
  - rewrite filter_cons_True in Hothers by done.
    rewrite decide_False by (intros [[= ?] _]; done).
    destruct others as [|p rest]; [done|]. injection Hothers as <- _.
    rewrite decide_False; [done|]. intros [Hlt _].
    apply elem_of_cons in Hin as [->|Hin]; [done|].
    specialize (Hall c Hin).
    rewrite !(sameRegistry_prio fm fm1) in Hall by done. lia.
Qed.

(** ** Settled calls *)

Lemma idle_eta fm :
  m_executor fm = [] →
  FocusManager.mk (m_allChannels fm) (m_activeChannels fm) [] (outputs fm) = fm.
Proof. destruct fm; simpl. by intros ->. Qed.

Lemma settle_acquire effect c o a fm :
  m_executor fm = [] → registered fm c →
  runNext effect (acquireChannel c o a fm).2 = acquireChannelHelper c o a fm.
Proof.
  intros Hidle [ch Hc]. unfold acquireChannel, getChannel. rewrite Hc. simpl.
  unfold runNext. simpl. rewrite Hidle. simpl. by rewrite idle_eta.
Qed.

Lemma settle_release effect c o fm :
  m_executor fm = [] → registered fm c →
  runNext effect (releaseChannel c o fm) = releaseChannelHelper c o c fm.
Proof.
  intros Hidle [ch Hc]. unfold releaseChannel, getChannel. rewrite Hc. simpl.
  unfold runNext. simpl. rewrite Hidle. simpl. by rewrite idle_eta.
Qed.



(** ** Stopping twice *)


Lemma stopActivity_true fm c a :
  stopActivity fm c a = true ↔
  ∃ ch, m_allChannels fm !! c = Some ch ∧ Channel.m_currentActivityId ch = a.
Proof.
  unfold stopActivity, Channel.stopActivity.
  destruct (m_allChannels fm !! c) as [ch|]; [|naive_solver].
  rewrite bool_decide_eq_true. naive_solver.
Qed.

Lemma setActivityId_lookup c a fm c' :
  m_allChannels (setActivityId c a fm) !! c' =
  if decide (c' = c) then
    (λ ch, Channel.mk (Channel.m_priority ch) (Channel.m_focusState ch)
             (Channel.m_observer ch) a) <$> m_allChannels fm !! c
  else m_allChannels fm !! c'.
Proof.
  unfold setActivityId. rewrite call_lookup. case_decide; [|done].
  by destruct (m_allChannels fm !! c).
Qed.

(** The stopped channel after a stop task that passed the guard. *)
Lemma stop_lookup_stopped effect c a fm ch :
  wf fm → stopActivity fm c a = true → m_allChannels fm !! c = Some ch →
  m_allChannels (stopForegroundActivityHelper effect c a fm) !! c =
  Some (Channel.mk (Channel.m_priority ch)
          (stoppedFocus effect (Channel.m_focusState ch))
          (Channel.m_observer ch) EmptyString).
Proof.
  intros Hwf Hs Hc. pose proof (stop_active_other effect c a fm c Hwf Hs) as Hnot.
  rewrite stop_unfold in * by done. rewrite foreground_unfold in *.
  set (erased := eraseActive c (setActivityId c EmptyString (stopEffect effect c fm)))
    in *.
  assert (m_allChannels erased !! c =
          Some (Channel.mk (Channel.m_priority ch)
                  (stoppedFocus effect (Channel.m_focusState ch))
                  (Channel.m_observer ch) EmptyString)) as He.
  { subst erased. simpl.
    by rewrite setActivityId_lookup, decide_True, stopEffect_lookup, decide_True, Hc. }
  destruct (m_activeChannels erased) as [|q l] eqn:Hact; [done|].
  rewrite setFocus_lookup_ne; [done|].
  intros ->. apply Hnot; [|done]. unfold active.
  rewrite setFocus_active, Hact. left.
Qed.

Lemma stop_activity_cleared effect c a fm :
  wf fm → stopActivity fm c a = true →
  getActivityId (stopForegroundActivityHelper effect c a fm) c = EmptyString.
Proof.
  intros Hwf Hs. pose proof Hs as (ch & Hc & _)%stopActivity_true.
  unfold getActivityId. by rewrite (stop_lookup_stopped effect c a fm ch).
Qed.




(** * The scenarios of the specification, run on the model *)

(** Single acquire: Content is in the foreground, observer 1 is told. *)
Example scenario_single_acquire :
  let fm := history FocusNone exampleConfigs singleAcquire in
  focusTable fm = [Some NONE; Some NONE; Some FOREGROUND] ∧
  outputs fm = [onFocusChanged 1 FOREGROUND].
Proof. vm_compute. split; reflexivity. Qed.

(** Higher preempts: observer 1 sees [BACKGROUND] before observer 2 sees
    [FOREGROUND]. *)
Example scenario_higher_preempts :
  let fm := history FocusNone exampleConfigs higherPreempts in
  focusTable fm = [Some FOREGROUND; Some NONE; Some BACKGROUND] ∧
  outputs fm =
    [onFocusChanged 1 FOREGROUND; onFocusChanged 1 BACKGROUND;
     onFocusChanged 2 FOREGROUND].
Proof. vm_compute. split; reflexivity. Qed.

(** Lower does not preempt: Content, acquired while Dialog is in the
    foreground, goes to the background and Dialog's observer receives
    nothing new. *)
Example scenario_lower_does_not_preempt :
  let fm :=
    history FocusNone exampleConfigs
      [CallAcquire "Dialog" (Some 2) "tts"; WorkerRuns;
       CallAcquire "Content" (Some 1) "music"; WorkerRuns] in
  focusTable fm = [Some FOREGROUND; Some NONE; Some BACKGROUND] ∧
  outputs fm = [onFocusChanged 2 FOREGROUND; onFocusChanged 1 BACKGROUND].
Proof. vm_compute. split; reflexivity. Qed.

(** Alerts (200) has priority over Content (300): acquired while Content is
    in the foreground, it takes the foreground. *)
Example scenario_alerts_over_content :
  let fm :=
    history FocusNone exampleConfigs
      (singleAcquire ++ [CallAcquire "Alerts" (Some 3) "alarm"; WorkerRuns]) in
  focusTable fm = [Some NONE; Some FOREGROUND; Some BACKGROUND] ∧
  outputs fm =
    [onFocusChanged 1 FOREGROUND; onFocusChanged 1 BACKGROUND;
     onFocusChanged 3 FOREGROUND].
Proof. vm_compute. split; reflexivity. Qed.

(** Release restores: observer 2 sees [NONE], Content is promoted. *)
Example scenario_release_restores :
  let fm :=
    history FocusNone exampleConfigs
      (higherPreempts ++ [CallRelease "Dialog" (Some 2); WorkerRuns]) in
  focusTable fm = [Some NONE; Some NONE; Some FOREGROUND] ∧
  m_activeChannels fm = ["Content"] ∧
  outputs fm =
    [onFocusChanged 1 FOREGROUND; onFocusChanged 1 BACKGROUND;
     onFocusChanged 2 FOREGROUND; set_value true;
     onFocusChanged 2 NONE; onFocusChanged 1 FOREGROUND].
Proof. vm_compute. repeat split; reflexivity. Qed.

(** Stop foreground: Dialog leaves the active set and Content is promoted.
    When [stopActivity] sets the focus to [NONE], observer 2 is told so
    before Content is promoted. *)
Example scenario_stop_foreground :
  let fm := history FocusNone exampleConfigs stopForeground in
  m_activeChannels fm = ["Content"] ∧
  getActivityId fm "Dialog" = EmptyString ∧
  focusTable fm = [Some NONE; Some NONE; Some FOREGROUND] ∧
  outputs fm =
    [onFocusChanged 1 FOREGROUND; onFocusChanged 1 BACKGROUND;
     onFocusChanged 2 FOREGROUND; onFocusChanged 2 NONE;
     onFocusChanged 1 FOREGROUND].
Proof. vm_compute. repeat split; reflexivity. Qed.

(** The same scenario when [stopActivity] only returns its result: nothing
    in the manager resets Dialog's cached focus, which stays [FOREGROUND]
    outside the active set, and observer 2 is told nothing. *)
Example scenario_stop_foreground_result_only :
  let fm := history ResultOnly exampleConfigs stopForeground in
  m_activeChannels fm = ["Content"] ∧
  getActivityId fm "Dialog" = EmptyString ∧
  focusTable fm = [Some FOREGROUND; Some NONE; Some FOREGROUND] ∧
  outputs fm =
    [onFocusChanged 1 FOREGROUND; onFocusChanged 1 BACKGROUND;
     onFocusChanged 2 FOREGROUND; onFocusChanged 1 FOREGROUND].
Proof. vm_compute. repeat split; reflexivity. Qed.

(** Stale stop: the activity changed between the snapshot and the task, and
    the stop task does nothing. *)
Example scenario_stale_stop :
  let fm := history FocusNone exampleConfigs staleStop in
  m_activeChannels fm = ["Content"] ∧
  getActivityId fm "Content" = "news" ∧
  m_executor fm = [].
Proof. vm_compute. repeat split; reflexivity. Qed.

(** Duplicate configuration: B and the second A are rejected. *)
Example scenario_duplicate_config :
  let fm := FocusManager [mkConfig "A" 100; mkConfig "B" 100; mkConfig "A" 200] in
  map_to_list (m_allChannels fm) = [("A", Channel.new 100)] ∧
  outputs fm =
    [logged (createChannelFailed "channelPriorityExists" (mkConfig "B" 100));
     logged (createChannelFailed "channelNameExists" (mkConfig "A" 200))].
Proof. vm_compute. split; reflexivity. Qed.

(** * The claims *)

(** ** C1: unique foreground *)

(** C1.  After every history of calls and worker steps, when the active
    set is not empty its highest-priority channel (lowest number) has focus
    [FOREGROUND], it is the only channel with that focus, every other
    active channel has focus [BACKGROUND], and no channel outside the
    active set has focus [FOREGROUND].  The stop task of the manager never
    sets a focus to [NONE] by itself, so what is said of the channels
    outside the active set is proved with a [stopActivity] that sets the
    focus of the channel it stops to [NONE] ([FocusNone]); what is said of
    the active channels is proved whatever [stopActivity] does. *)
Theorem unique_foreground_invariant configs calls :
  uniqueForeground (history FocusNone configs calls) ∧
  ∀ effect, foregroundAmongActive (history effect configs calls).
Proof.
  split.
  - apply wf_uniqueForeground; [apply wf_history|apply vacantNone_history].
  - intros effect. apply wf_foregroundAmongActive, wf_history.
Qed.

Lemma unique_foreground_invariant_witness :
  let fm := history FocusNone exampleConfigs stopForeground in
  m_executor fm = [] ∧ m_activeChannels fm = ["Content"] ∧ uniqueForeground fm.
Proof.
  intros fm.
  split; [vm_compute; reflexivity|]. split; [vm_compute; reflexivity|].
  exact (proj1 (unique_foreground_invariant exampleConfigs stopForeground)).
Defined.

(** What C1 says of the channels outside the active set does depend on
    [stopActivity]: if it only returned its result, then after "higher
    preempts" and a stop of the foreground activity Dialog would be outside
    the active set with focus [FOREGROUND]. *)
Lemma result_only_leaves_foreground :
  m_executor (history ResultOnly exampleConfigs stopForeground) = [] ∧
  ¬ uniqueForeground (history ResultOnly exampleConfigs stopForeground).
Proof.
  split; [vm_compute; reflexivity|].
  intros [_ Hout]. specialize (Hout "Dialog").
  assert (focusOf (history ResultOnly exampleConfigs stopForeground) "Dialog" =
          Some FOREGROUND) as Hfocus by (vm_compute; reflexivity).
  specialize (Hout Hfocus). clear Hfocus. unfold active in Hout.
  assert (m_activeChannels (history ResultOnly exampleConfigs stopForeground) =
          ["Content"]) as Hact by (vm_compute; reflexivity).
  rewrite Hact in Hout. clear Hact.
  apply list_elem_of_singleton in Hout. discriminate Hout.
Qed.

(** ** C2: the acquire decision table *)

(** C2.  An acquire task sets the activity id, installs the observer and
    then assigns focus from the snapshot of the foreground channel taken
    before the insertion: with no foreground channel, or when the
    foreground channel is the acquired one, the acquired channel ends in
    [FOREGROUND] and no other channel changes; when the acquired channel has
    the strictly higher priority, the previous foreground channel is set
    to [BACKGROUND] first and the acquired one to [FOREGROUND] second, the
    callbacks being delivered in that order; otherwise the acquired channel
    ends in [BACKGROUND] and no other channel changes. *)
Theorem acquire_decision_table c o a fm ch :
  m_allChannels fm !! c = Some ch →
  let fm' := acquireChannelHelper c o a fm in
  let installed := outputs fm ++ (Channel.setObserver o ch).2 in
  let acquired focus := Channel.mk (Channel.m_priority ch) focus o a in
  (getHighestPriorityActiveChannelLocked fm = None ∨
   getHighestPriorityActiveChannelLocked fm = Some c →
     m_allChannels fm' !! c = Some (acquired FOREGROUND) ∧
     (∀ c', c' ≠ c → m_allChannels fm' !! c' = m_allChannels fm !! c') ∧
     outputs fm' = installed ++ callback o (Channel.m_focusState ch) FOREGROUND) ∧
  (∀ prev pch,
     getHighestPriorityActiveChannelLocked fm = Some prev → prev ≠ c →
     m_allChannels fm !! prev = Some pch →
     if Channel.gt ch pch then
       m_allChannels fm' !! prev =
         Some (Channel.mk (Channel.m_priority pch) BACKGROUND (Channel.m_observer pch)
                 (Channel.m_currentActivityId pch)) ∧
       m_allChannels fm' !! c = Some (acquired FOREGROUND) ∧
       (∀ c', c' ≠ c → c' ≠ prev → m_allChannels fm' !! c' = m_allChannels fm !! c') ∧
       outputs fm' =
         installed ++
         callback (Channel.m_observer pch) (Channel.m_focusState pch) BACKGROUND ++
         callback o (Channel.m_focusState ch) FOREGROUND
     else
       m_allChannels fm' !! c = Some (acquired BACKGROUND) ∧
       (∀ c', c' ≠ c → m_allChannels fm' !! c' = m_allChannels fm !! c') ∧
       outputs fm' = installed ++ callback o (Channel.m_focusState ch) BACKGROUND).
Proof.
  intros Hc fm' installed acquired.
  assert (m_allChannels (install c o a fm) !! c =
          Some (acquired (Channel.m_focusState ch))) as Hic.
  { by rewrite install_lookup, decide_True, Hc. }
  assert (∀ c', c' ≠ c →
          m_allChannels (install c o a fm) !! c' = m_allChannels fm !! c') as Hio.
  { intros c' Hne. by rewrite install_lookup, decide_False. }
  assert (outputs (install c o a fm) = installed) as Hiout.
  { by rewrite install_outputs, Hc. }
  assert (∀ focus,
    m_allChannels (setFocus c focus (install c o a fm)) !! c = Some (acquired focus) ∧
    (∀ c', c' ≠ c →
       m_allChannels (setFocus c focus (install c o a fm)) !! c' =
       m_allChannels fm !! c') ∧
    outputs (setFocus c focus (install c o a fm)) =
    installed ++ callback o (Channel.m_focusState ch) focus) as Hsimple.
  { intros focus. split; [|split].
    - by rewrite (setFocus_lookup_eq _ _ _ _ Hic).
    - intros c' Hne. by rewrite setFocus_lookup_ne, Hio.
    - by rewrite (setFocus_outputs_eq _ _ _ _ Hic), Hiout. }
  subst fm'. rewrite acquire_unfold.
  unfold getHighestPriorityActiveChannelLocked.
  destruct (m_activeChannels fm) as [|p l]; split.
  - intros _. apply Hsimple.
  - by intros prev pch [=].
  - intros [[=]|[= ->]]. rewrite decide_True by done. apply Hsimple.
  - intros prev pch [= ->] Hne Hp. rewrite decide_False by done.
    rewrite (prio_lookup _ _ _ Hc), (prio_lookup _ _ _ Hp).
    unfold Channel.gt. destruct (_ <? _)%N; [|apply Hsimple].
    assert (m_allChannels (install c o a fm) !! prev = Some pch) as Hip
      by by rewrite Hio.
    assert (m_allChannels (setFocus prev BACKGROUND (install c o a fm)) !! c =
            Some (acquired (Channel.m_focusState ch))) as Hbc.
    { by rewrite setFocus_lookup_ne. }
    split; [|split; [|split]].
    + by rewrite setFocus_lookup_ne, (setFocus_lookup_eq _ _ _ _ Hip).
    + by rewrite (setFocus_lookup_eq _ _ _ _ Hbc).
    + intros c' Hne1 Hne2. by rewrite !setFocus_lookup_ne, Hio.
    + rewrite (setFocus_outputs_eq _ _ _ _ Hbc), (setFocus_outputs_eq _ _ _ _ Hip).
      by rewrite Hiout, <- app_assoc.
Qed.

Lemma acquire_decision_table_witness :
  let fm := history FocusNone exampleConfigs singleAcquire in
  m_allChannels fm !! "Dialog" = Some (Channel.new 100) ∧
  outputs (acquireChannelHelper "Dialog" (Some 2) "tts" fm) =
  outputs fm ++ [onFocusChanged 1 BACKGROUND; onFocusChanged 2 FOREGROUND].
Proof.
  intros fm.
  assert (m_allChannels fm !! "Dialog" = Some (Channel.new 100)) as Hc
    by (vm_compute; reflexivity).
  split; [exact Hc|].
  destruct (acquire_decision_table "Dialog" (Some 2) "tts" fm _ Hc) as [_ Htable].
  specialize (Htable "Content" (Channel.mk 300 FOREGROUND (Some 1) "music")).
  change (Channel.gt _ _) with true in Htable.
  destruct Htable as (_ & _ & _ & Hout).
  - vm_compute; reflexivity.
  - intros Heq. discriminate Heq.
  - vm_compute; reflexivity.
  - rewrite Hout.
    change (Channel.setObserver (Some 2) (Channel.new 100)).2 with (@nil Output).
    rewrite app_nil_r. reflexivity.
Defined.

(** ** C3: active iff focused *)

(** C3.  After every history a channel is in the active set if and only if
    its cached focus is not [NONE], and a channel removed from the active
    set, by a release of its owner or by a stop task that passes the guard,
    has focus [NONE].  The stop task of the manager never sets a focus to
    [NONE] by itself, so what is said of a stopped channel, and with it the
    direction from a focus other than [NONE] to the active set, is proved
    with a [stopActivity] that sets the focus of the channel it stops to
    [NONE] ([FocusNone]); that an active channel has a focus other than
    [NONE], and that a released channel has focus [NONE], is proved
    whatever [stopActivity] does. *)
Theorem active_iff_focused_invariant configs calls :
  (let fm := history FocusNone configs calls in
   activeIffFocused fm ∧
   (∀ c a, stopActivity fm c a = true →
      let fm' := stopForegroundActivityHelper FocusNone c a fm in
      ¬ active fm' c ∧ focusOf fm' c = Some NONE)) ∧
  (∀ effect,
     let fm := history effect configs calls in
     (∀ c ch, m_allChannels fm !! c = Some ch → active fm c →
              Channel.m_focusState ch ≠ NONE) ∧
     (∀ c n ch, m_allChannels fm !! c = Some ch →
        let fm' := releaseChannelHelper c (Channel.m_observer ch) n fm in
        ¬ active fm' c ∧ focusOf fm' c = Some NONE)).
Proof.
  split.
  - pose proof (wf_history FocusNone configs calls) as Hwf.
    split; [apply wf_activeIffFocused; [done|apply vacantNone_history]|].
    intros c a Hs fm'. split.
    + intros [_ Hne]%stop_active_other; done.
    + pose proof Hs as (ch & Hc & _)%stopActivity_true.
      unfold focusOf. subst fm'.
      by rewrite (stop_lookup_stopped FocusNone c a _ ch).
  - intros effect fm. pose proof (wf_history effect configs calls) as Hwf.
    split.
    + intros c ch. by apply wf_active_focused.
    + intros c n ch Hc fm'.
      destruct (release_effects c n fm ch Hwf Hc) as (Hact & Hlook & _).
      split.
      * intros [_ Hne]%Hact. done.
      * unfold focusOf. subst fm'. by rewrite Hlook.
Qed.

Lemma active_iff_focused_invariant_witness :
  let fm := history FocusNone exampleConfigs higherPreempts in
  let fm' := stopForegroundActivityHelper FocusNone "Dialog" "tts" fm in
  stopActivity fm "Dialog" "tts" = true ∧
  ¬ active fm' "Dialog" ∧ focusOf fm' "Dialog" = Some NONE ∧
  activeIffFocused (history FocusNone exampleConfigs stopSingle).
Proof.
  intros fm fm'.
  assert (stopActivity fm "Dialog" "tts" = true) as Hs by (vm_compute; reflexivity).
  split; [exact Hs|].
  destruct (active_iff_focused_invariant exampleConfigs higherPreempts)
    as [[_ Hstop] _].
  destruct (Hstop "Dialog" "tts" Hs) as [Hna Hnone].
  split; [exact Hna|]. split; [exact Hnone|].
  exact (proj1 (proj1 (active_iff_focused_invariant exampleConfigs stopSingle))).
Defined.

(** What C3 says of a stopped channel does depend on [stopActivity]: if it
    only returned its result, then once the only activity has been stopped
    Content would be outside the active set with its cached focus still
    [FOREGROUND]. *)
Lemma result_only_leaves_focus :
  m_executor (history ResultOnly exampleConfigs stopSingle) = [] ∧
  ¬ activeIffFocused (history ResultOnly exampleConfigs stopSingle).
Proof.
  split; [vm_compute; reflexivity|].
  intros Hiff.
  specialize (Hiff "Content" (Channel.mk 300 FOREGROUND (Some 1) EmptyString)).
  destruct Hiff as [_ Hback]; [vm_compute; reflexivity|].
  assert (m_activeChannels (history ResultOnly exampleConfigs stopSingle) = [])
    as Hact by (vm_compute; reflexivity).
  unfold active in Hback. rewrite Hact in Hback. clear Hact.
  apply (not_elem_of_nil "Content"), Hback.
  intros Heq. discriminate Heq.
Qed.

(** ** C4: release by the owner *)

(** C4, as amended.  In a state reached by any history, when the releasing
    observer owns the channel, the release task fulfils the promise with
    true, removes the channel from the active set and sets its focus to
    [NONE]; if the channel was the first of the active set, the new first
    channel, when there is one, is then set to [FOREGROUND]; if it was not,
    no other channel is touched.  When the channel held a focus, its
    observer is called back with [NONE], and [NONE] is the last state this
    observer receives unless it also observes the channel that the release
    promotes, in which case it receives [FOREGROUND] last.  When the focus
    was [NONE] already, no observer is called. *)
Theorem release_semantics effect configs calls c n ch :
  let fm := history effect configs calls in
  m_allChannels fm !! c = Some ch →
  let o := Channel.m_observer ch in
  let fm' := releaseChannelHelper c o n fm in
  let told :=
    outputs fm ++ [set_value true] ++ callback o (Channel.m_focusState ch) NONE in
  (∀ c', active fm' c' ↔ active fm c' ∧ c' ≠ c) ∧
  m_allChannels fm' !! c =
    Some (Channel.mk (Channel.m_priority ch) NONE o (Channel.m_currentActivityId ch)) ∧
  (getHighestPriorityActiveChannelLocked fm = Some c →
     match getHighestPriorityActiveChannelLocked fm' with
     | Some q =>
         focusOf fm' q = Some FOREGROUND ∧
         (∀ c', c' ≠ c → c' ≠ q → m_allChannels fm' !! c' = m_allChannels fm !! c') ∧
         outputs fm' =
           told ++ from_option (λ oq, [onFocusChanged oq FOREGROUND]) [] (observerOf fm q)
     | None =>
         (∀ c', c' ≠ c → m_allChannels fm' !! c' = m_allChannels fm !! c') ∧
         outputs fm' = told
     end) ∧
  (getHighestPriorityActiveChannelLocked fm ≠ Some c →
     (∀ c', c' ≠ c → m_allChannels fm' !! c' = m_allChannels fm !! c') ∧
     outputs fm' = told) ∧
  (Channel.m_focusState ch = NONE → outputs fm' = outputs fm ++ [set_value true]) ∧
  (∀ obs, o = Some obs → Channel.m_focusState ch ≠ NONE →
     lastReceived obs (outputs fm') =
     Some (if decide (getHighestPriorityActiveChannelLocked fm = Some c ∧
                      getHighestPriorityActiveChannelLocked fm' ≫= observerOf fm =
                      Some obs)
           then FOREGROUND else NONE)).
Proof. intros fm. apply release_effects, wf_history. Qed.

Lemma release_semantics_witness :
  let fm := history FocusNone exampleConfigs higherPreempts in
  let fm' := releaseChannelHelper "Dialog" (Some 2) "Dialog" fm in
  m_allChannels fm !! "Dialog" = Some (Channel.mk 100 FOREGROUND (Some 2) "tts") ∧
  focusOf fm' "Dialog" = Some NONE ∧
  outputs fm' =
    outputs fm ++ [set_value true; onFocusChanged 2 NONE; onFocusChanged 1 FOREGROUND] ∧
  lastReceived 2 (outputs fm') = Some NONE.
Proof.
  intros fm fm'.
  assert (m_allChannels fm !! "Dialog" =
          Some (Channel.mk 100 FOREGROUND (Some 2) "tts")) as Hc
    by (vm_compute; reflexivity).
  assert (getHighestPriorityActiveChannelLocked fm = Some "Dialog") as Htop
    by (vm_compute; reflexivity).
  assert (getHighestPriorityActiveChannelLocked fm' = Some "Content") as Hnext
    by (vm_compute; reflexivity).
  assert (observerOf fm "Content" = Some 1) as Hobs by (vm_compute; reflexivity).
  split; [exact Hc|].
  destruct (release_semantics FocusNone exampleConfigs higherPreempts "Dialog" "Dialog"
              _ Hc) as (_ & Hlook & Hpromote & _ & _ & Hlast).
  change (releaseChannelHelper "Dialog" _ "Dialog" (history FocusNone _ _)) with fm'
    in Hlook, Hpromote, Hlast.
  change (history FocusNone exampleConfigs higherPreempts) with fm in Hpromote, Hlast.
  specialize (Hpromote Htop). rewrite Hnext in Hpromote.
  destruct Hpromote as (_ & _ & Hout). rewrite Hobs in Hout.
  split; [unfold focusOf; rewrite Hlook; reflexivity|].
  split.
  - rewrite Hout, <- app_assoc. reflexivity.
  - etrans; [apply Hlast; [reflexivity|intros Heq; discriminate Heq]|].
    vm_compute; reflexivity.
Defined.

(** C4 fails as stated when the owner of the released channel also
    observes the channel that the release promotes.  Observer 1 holds
    Content, acquires Dialog and releases it: the release is valid, Dialog
    ends with focus [NONE], and the last state that observer 1 receives is
    [FOREGROUND], delivered for Content. *)
Lemma release_semantics_counterexample :
  let fails effect :=
    let fm := history effect exampleConfigs sharedObserver in
    let fm' := releaseChannelHelper "Dialog" (Some 1) "Dialog" fm in
    doesObserverOwnChannel fm "Dialog" (Some 1) = true ∧
    focusOf fm' "Dialog" = Some NONE ∧
    received 1 (outputs fm') =
      [FOREGROUND; BACKGROUND; FOREGROUND; NONE; FOREGROUND] ∧
    lastReceived 1 (outputs fm') ≠ Some NONE in
  fails ResultOnly ∧ fails FocusNone.
Proof.
  vm_compute. repeat split; intros Heq; discriminate Heq.
Qed.

(** ** C5: release by another observer *)

(** C5.  When the supplied observer is not the channel's current observer,
    the release task logs [observerDoesNotOwnChannel] and fulfils the
    promise with false; no observer is called back, and the channels, the
    active set and the queue are unchanged. *)
Theorem wrong_observer_release c o n fm ch :
  m_allChannels fm !! c = Some ch → Channel.m_observer ch ≠ o →
  let fm' := releaseChannelHelper c o n fm in
  m_allChannels fm' = m_allChannels fm ∧
  m_activeChannels fm' = m_activeChannels fm ∧
  m_executor fm' = m_executor fm ∧
  outputs fm' =
    outputs fm ++
    [logged (releaseChannelHelperFailed "observerDoesNotOwnChannel" n);
     set_value false].
Proof.
  intros Hc Hne fm'. subst fm'. rewrite release_rejected; [done|].
  apply not_true_is_false. intros (ch' & Hc' & Ho)%doesObserverOwnChannel_observer.
  congruence.
Qed.

Lemma wrong_observer_release_witness :
  let fm := history FocusNone exampleConfigs higherPreempts in
  let fm' := releaseChannelHelper "Dialog" (Some 3) "Dialog" fm in
  m_allChannels fm !! "Dialog" = Some (Channel.mk 100 FOREGROUND (Some 2) "tts") ∧
  m_allChannels fm' = m_allChannels fm ∧
  m_activeChannels fm' = m_activeChannels fm ∧
  m_executor fm' = m_executor fm ∧
  outputs fm' =
    outputs fm ++
    [logged (releaseChannelHelperFailed "observerDoesNotOwnChannel" "Dialog");
     set_value false].
Proof.
  intros fm fm'.
  assert (m_allChannels fm !! "Dialog" =
          Some (Channel.mk 100 FOREGROUND (Some 2) "tts")) as Hc
    by (vm_compute; reflexivity).
  split; [exact Hc|].
  apply (wrong_observer_release "Dialog" (Some 3) "Dialog" fm _ Hc).
  intros Heq. discriminate Heq.
Defined.

(** ** C6: acquire then release *)

(** C6, as amended.  From a state reached by any history, with the queue
    drained, for a registered channel C: acquire(C, O, A) followed by
    release(C, O), each run to completion, leaves the active set as it was
    before the acquire with C removed, so that the active set is exactly
    what it was if and only if C was not active.  The last state O has
    received is [NONE], except when C outranks every other active channel
    and O is also the observer of the first of them: the release then
    promotes that channel and O receives [FOREGROUND] last. *)
Theorem acquire_release_roundtrip effect configs calls c o a :
  let fm := history effect configs calls in
  m_executor fm = [] → registered fm c →
  let fm' :=
    history effect configs
      (calls ++ [CallAcquire c (Some o) a; WorkerRuns;
                 CallRelease c (Some o); WorkerRuns]) in
  let others := filter (λ x, x ≠ c) (m_activeChannels fm) in
  m_activeChannels fm' = others ∧
  (m_activeChannels fm' = m_activeChannels fm ↔ ¬ active fm c) ∧
  lastReceived o (outputs fm') =
  Some match others with
       | p :: _ =>
           if decide ((prio fm c < prio fm p)%N ∧ observerOf fm p = Some o)
           then FOREGROUND else NONE
       | [] => NONE
       end.
Proof.
  intros fm Hidle Hc fm' others.
  assert (fm' = releaseChannelHelper c (Some o) c
                  (acquireChannelHelper c (Some o) a fm)) as ->.
  { subst fm'. unfold history. rewrite fold_left_app.
    fold (history effect configs calls). fold fm. simpl.
    rewrite settle_acquire by done.
    rewrite settle_release; [done|by rewrite acquire_executor|].
    by apply (sameRegistry_registered fm); [apply acquire_sameRegistry|]. }
  destruct (acquire_release_roundtrip_tasks c o a c fm (wf_history _ _ _) Hc)
    as [Hact Hlast].
  fold others in Hact, Hlast.
  split; [done|]. split; [|done].
  rewrite Hact. unfold others, active. split.
  - intros Heq Hin.
    pose proof (length_filter_lt (λ x, x ≠ c) _ c Hin) as Hlt.
    rewrite Heq in Hlt. apply (Nat.lt_irrefl (length (m_activeChannels fm))).
    apply Hlt. by intros [].
  - apply filter_others.
Qed.

Lemma acquire_release_roundtrip_witness :
  let fm := history FocusNone exampleConfigs singleAcquire in
  let fm' :=
    history FocusNone exampleConfigs
      (singleAcquire ++ [CallAcquire "Dialog" (Some 2) "tts"; WorkerRuns;
                         CallRelease "Dialog" (Some 2); WorkerRuns]) in
  m_executor fm = [] ∧ registered fm "Dialog" ∧
  m_activeChannels fm' = m_activeChannels fm ∧
  lastReceived 2 (outputs fm') = Some NONE.
Proof.
  intros fm fm'.
  assert (m_executor fm = []) as Hidle by (vm_compute; reflexivity).
  assert (registered fm "Dialog") as Hc by (eexists; vm_compute; reflexivity).
  split; [exact Hidle|]. split; [exact Hc|].
  destruct (acquire_release_roundtrip FocusNone exampleConfigs singleAcquire
              "Dialog" 2 "tts" Hidle Hc) as (_ & Hsame & Hlast).
  split.
  - apply Hsame. unfold active.
    assert (m_activeChannels (history FocusNone exampleConfigs singleAcquire) =
            ["Content"]) as -> by (vm_compute; reflexivity).
    intros Heq%list_elem_of_singleton. discriminate Heq.
  - etrans; [exact Hlast|]. vm_compute; reflexivity.
Defined.

(** C6 fails as stated when the channel is already active: Content is
    active, it is acquired again by another observer and released by that
    observer, and the active set, which held Content, is empty. *)
Lemma acquire_release_roundtrip_counterexample :
  let fails effect :=
    let fm := history effect exampleConfigs singleAcquire in
    let fm' :=
      history effect exampleConfigs
        (singleAcquire ++ [CallAcquire "Content" (Some 2) "news"; WorkerRuns;
                           CallRelease "Content" (Some 2); WorkerRuns]) in
    m_executor fm = [] ∧ m_executor fm' = [] ∧
    m_activeChannels fm = ["Content"] ∧ m_activeChannels fm' = [] ∧
    m_activeChannels fm' ≠ m_activeChannels fm in
  fails ResultOnly ∧ fails FocusNone.
Proof.
  vm_compute. repeat split; intros Heq; discriminate Heq.
Qed.

(** It fails as well when the observer also observes the channel that the
    release promotes: when observer 1 holds Content in the foreground,
    acquires Dialog and releases it, the release promotes Content and the
    last state observer 1 receives is [FOREGROUND]. *)
Lemma roundtrip_shared_observer :
  let fm' :=
    history FocusNone exampleConfigs
      (sharedObserver ++ [CallRelease "Dialog" (Some 1); WorkerRuns]) in
  received 1 (outputs fm') = [FOREGROUND; BACKGROUND; FOREGROUND; NONE; FOREGROUND] ∧
  lastReceived 1 (outputs fm') = Some FOREGROUND.
Proof. vm_compute. split; reflexivity. Qed.

(** It holds for an observer of the foreground channel when the acquired
    channel does not outrank that channel: observer 1 holds Dialog in the
    foreground, acquires Content and releases it; nothing is promoted and
    the last state observer 1 receives is [NONE]. *)
Lemma roundtrip_behind_own_foreground :
  let fm :=
    history FocusNone exampleConfigs [CallAcquire "Dialog" (Some 1) "tts"; WorkerRuns] in
  let fm' :=
    history FocusNone exampleConfigs
      [CallAcquire "Dialog" (Some 1) "tts"; WorkerRuns;
       CallAcquire "Content" (Some 1) "music"; WorkerRuns;
       CallRelease "Content" (Some 1); WorkerRuns] in
  m_activeChannels fm' = m_activeChannels fm ∧
  lastReceived 1 (outputs fm') = Some NONE.
Proof. vm_compute. split; reflexivity. Qed.

(** ** C7: stopping twice *)




(** ** C8: construction *)

(** C8.  The constructor processes the configurations in order.  An entry
    is inserted as a fresh channel iff neither its name nor its priority
    is that of a channel inserted before it; an entry whose name is taken
    is rejected with [channelNameExists], whether or not its priority is
    taken too; an entry with a new name and a taken priority is rejected
    with [channelPriorityExists]; a rejected entry leaves the channel table
    as it would be without it; and in the end names and priorities of the
    registered channels are each without repetition. *)
Theorem construction_dedup before config after :
  let fm := FocusManager before in
  let fm' := FocusManager (before ++ [config]) in
  let all := FocusManager (before ++ config :: after) in
  (insertedFresh fm fm' config ↔
   ¬ nameTaken fm (name config) ∧ ¬ priorityTaken fm (priority config)) ∧
  (nameTaken fm (name config) →
   fm' = emit [logged (createChannelFailed "channelNameExists" config)] fm) ∧
  (¬ nameTaken fm (name config) → priorityTaken fm (priority config) →
   fm' = emit [logged (createChannelFailed "channelPriorityExists" config)] fm) ∧
  (¬ insertedFresh fm fm' config →
   m_allChannels all = m_allChannels (FocusManager (before ++ after))) ∧
  NoDup (map_to_list (m_allChannels all)).*1 ∧
  NoDup ((λ entry, Channel.m_priority entry.2) <$> map_to_list (m_allChannels all)).
Proof.
  intros fm fm' all.
  assert (fm' = addChannel fm config) as Hfm' by apply constructor_snoc.
  assert (all = fold_left addChannel after fm') as Hall.
  { subst all fm'. by rewrite <- constructor_app, <- app_assoc. }
  assert (insertedFresh fm fm' config ↔
          ¬ nameTaken fm (name config) ∧ ¬ priorityTaken fm (priority config)) as Hiff.
  { unfold insertedFresh. rewrite Hfm'.
    destruct (addChannel_cases fm config)
      as [[Hn ->]|[(Hn & Hp & ->)|(Hn & Hp & ->)]]; simpl.
    - split; [|tauto]. intros [Hnone _]. destruct Hn as [ch Hn]. congruence.
    - split; [|tauto]. intros [Hnone Heq].
      assert (m_allChannels fm !! name config = Some (Channel.new (priority config)))
        as Hsome by (rewrite Heq; apply lookup_insert_eq).
      congruence.
    - split; [done|]. intros _. split; [|done]. by apply not_nameTaken. }
  split; [done|]. split; [|split; [|split; [|split]]].
  - intros Hn. rewrite Hfm'.
    destruct (addChannel_cases fm config) as [[_ ->]|[(Hn' & _)|(Hn' & _)]]; done.
  - intros Hn Hp. rewrite Hfm'.
    destruct (addChannel_cases fm config) as [[Hn' _]|[(_ & _ & ->)|(_ & Hp' & _)]]; done.
  - intros Hrej. rewrite Hall, constructor_app. apply constructor_channels.
    rewrite Hfm'. fold fm.
    destruct (addChannel_cases fm config)
      as [[_ ->]|[(_ & _ & ->)|(Hn & Hp & _)]]; [done..|].
    destruct Hrej. by apply Hiff.
  - apply NoDup_fst_map_to_list.
  - apply uniquePriorities_NoDup, constructor_invariant.
Qed.

Lemma construction_dedup_witness :
  let configs := [mkConfig "A" 100; mkConfig "B" 100; mkConfig "A" 200] in
  m_allChannels (FocusManager configs) = {[ "A" := Channel.new 100 ]} ∧
  m_allChannels (FocusManager configs) =
  m_allChannels (FocusManager [mkConfig "A" 100; mkConfig "A" 200]).
Proof.
  intros configs.
  destruct (construction_dedup [mkConfig "A" 100] (mkConfig "B" 100) [mkConfig "A" 200])
    as (Hiff & _ & _ & Hrej & _).
  split; [vm_compute; reflexivity|].
  apply Hrej. intros [_ Hp]%Hiff. apply Hp.
  exists "A", (Channel.new 100). vm_compute. split; reflexivity.
Defined.

(** ** C9: acquire validates the channel name only *)



(** ** C10: acquiring an active channel again *)

(** C10.  In a state reached by any history, an acquire task for a
    registered channel leaves the active set without repetition and with
    the acquired channel in it, so the channel is present exactly once; an
    already active channel leaves the active set as it was; and the
    channel's activity id is the one given, whatever it was before. *)
Theorem reacquire_single_entry effect configs calls c o a :
  let fm := history effect configs calls in
  registered fm c →
  let fm' := acquireChannelHelper c o a fm in
  NoDup (m_activeChannels fm') ∧ active fm' c ∧
  length (filter (λ x, x = c) (m_activeChannels fm')) = 1 ∧
  (active fm c → m_activeChannels fm' = m_activeChannels fm) ∧
  getActivityId fm' c = a.
Proof.
  intros fm Hc fm'. pose proof (wf_history effect configs calls) as Hwf. fold fm in Hwf.
  assert (wf fm') as Hwf' by by apply wf_acquire.
  assert (NoDup (m_activeChannels fm')) as Hnd.
  { eapply ordered_NoDup, Hwf'. }
  assert (active fm' c) as Hin by by apply acquire_in_active.
  split; [done|]. split; [done|]. split; [|split].
  - unfold active in Hin. revert Hnd Hin.
    generalize (m_activeChannels fm'). intros l. induction l as [|h l IH]; intros Hnd Hin.
    + by apply elem_of_nil in Hin.
    + apply NoDup_cons in Hnd as [Hh Hnd]. rewrite filter_cons.
      case_decide as Hd.
      * subst h. simpl. f_equal.
        assert (filter (λ x, x = c) l = []) as ->; [|done].
        apply elem_of_nil_inv. intros x [-> Hx]%list_elem_of_filter. done.
      * apply IH; [done|]. apply elem_of_cons in Hin as [->|Hin]; done.
  - intros Hact. subst fm'. rewrite acquire_active.
    apply (set_insert_present (prio fm)); [apply acquire_comparator|apply Hwf|done].
  - destruct Hc as [ch Hc].
    destruct (acquire_lookup_acquired c o a fm ch Hc) as (focus & _ & Hlook).
    unfold getActivityId. subst fm'. by rewrite Hlook.
Qed.

Lemma reacquire_single_entry_witness :
  let fm := history FocusNone exampleConfigs higherPreempts in
  let fm' := acquireChannelHelper "Content" (Some 3) "news" fm in
  registered fm "Content" ∧
  m_activeChannels fm' = m_activeChannels fm ∧
  length (filter (λ x, x = "Content") (m_activeChannels fm')) = 1 ∧
  getActivityId fm' "Content" = "news".
Proof.
  intros fm fm'.
  assert (registered fm "Content") as Hc by (eexists; vm_compute; reflexivity).
  split; [exact Hc|].
  destruct (reacquire_single_entry FocusNone exampleConfigs higherPreempts "Content"
              (Some 3) "news" Hc) as (_ & _ & Hone & Hsame & Hid).
  split; [|split; [exact Hone|exact Hid]].
  apply Hsame. unfold active.
  assert (m_activeChannels (history FocusNone exampleConfigs higherPreempts) =
          ["Dialog"; "Content"]) as -> by (vm_compute; reflexivity).
  apply list_elem_of_further, list_elem_of_here.
Defined.

(** * Further properties *)

(** ** Promise values in the output trace *)

Lemma fulfilled_app l1 l2 : fulfilled (l1 ++ l2) = fulfilled l1 ++ fulfilled l2.
Proof. apply omap_app. Qed.

Lemma fulfilled_callback o old new : fulfilled (callback o old new) = [].
Proof. unfold callback. case_decide; [done|]. by destruct o. Qed.

Lemma fulfilled_call c method fm :
  (∀ ch, fulfilled (method ch).2 = []) →
  fulfilled (outputs (call c method fm)) = fulfilled (outputs fm).
Proof.
  intros Hm. rewrite call_outputs, fulfilled_app.
  destruct (m_allChannels fm !! c); simpl; by rewrite ?Hm, app_nil_r.
Qed.

Lemma fulfilled_setFocus c focus fm :
  fulfilled (outputs (setFocus c focus fm)) = fulfilled (outputs fm).
Proof.
  apply fulfilled_call. intros ch.
  rewrite Channel_setFocus_snd. apply fulfilled_callback.
Qed.

Lemma fulfilled_install c o a fm :
  fulfilled (outputs (install c o a fm)) = fulfilled (outputs fm).
Proof.
  rewrite install_outputs, fulfilled_app.
  destruct (m_allChannels fm !! c) as [ch|]; simpl; [|by rewrite app_nil_r].
  destruct (Channel.m_observer ch); simpl; by rewrite app_nil_r.
Qed.

Lemma fulfilled_acquire c o a fm :
  fulfilled (outputs (acquireChannelHelper c o a fm)) = fulfilled (outputs fm).
Proof.
  rewrite acquire_unfold.
  destruct (m_activeChannels fm) as [|p l]; [|case_decide; [|case_match]];
    by rewrite !fulfilled_setFocus, fulfilled_install.
Qed.

Lemma fulfilled_foreground fm :
  fulfilled (outputs (foregroundHighestPriorityActiveChannel fm)) =
  fulfilled (outputs fm).
Proof.
  rewrite foreground_unfold. destruct (m_activeChannels fm); [done|].
  apply fulfilled_setFocus.
Qed.

Lemma fulfilled_release c o n fm :
  fulfilled (outputs (releaseChannelHelper c o n fm)) =
  fulfilled (outputs fm) ++ [doesObserverOwnChannel fm c o].
Proof.
  destruct (doesObserverOwnChannel fm c o) eqn:Hown.
  - rewrite release_unfold by done. simpl.
    assert (fulfilled (outputs (setFocus c NONE (eraseActive c (emit [set_value true] fm))))
            = fulfilled (outputs fm) ++ [true]) as Hv.
    { rewrite fulfilled_setFocus. simpl. by rewrite fulfilled_app. }
    destruct (m_activeChannels fm); [done|]. case_decide; [|done].
    by rewrite fulfilled_foreground.
  - rewrite release_rejected by done. simpl. by rewrite fulfilled_app.
Qed.

Lemma fulfilled_stop effect c a fm :
  fulfilled (outputs (stopForegroundActivityHelper effect c a fm)) = fulfilled (outputs fm).
Proof.
  destruct (stopActivity fm c a) eqn:Hs; [|by rewrite stop_rejected].
  rewrite stop_unfold, fulfilled_foreground by done. simpl.
  unfold setActivityId. rewrite fulfilled_call by done.
  apply fulfilled_call. intros ch.
  rewrite Channel_stopped_snd. apply fulfilled_callback.
Qed.

Lemma pendingReleases_app fm q :
  length (List.filter isReleaseTask (m_executor fm ++ q)) =
  pendingReleases fm + length (List.filter isReleaseTask q).
Proof. unfold pendingReleases. by rewrite List.filter_app, length_app. Qed.

(** One event changes the number of answered and of waiting releases by
    one in all exactly when it is a release call. *)
Lemma promises_step effect fm call :
  length (fulfilled (outputs (perform effect fm call))) +
  pendingReleases (perform effect fm call) =
  length (fulfilled (outputs fm)) + pendingReleases fm +
  (if isReleaseCall call then 1 else 0).
Proof.
  destruct call as [n o a|n o| | |]; simpl.
  - unfold acquireChannel. destruct (getChannel fm n); simpl.
    + unfold pendingReleases at 1. simpl. rewrite pendingReleases_app. simpl. lia.
    + rewrite fulfilled_app. simpl. rewrite app_nil_r. unfold pendingReleases. simpl. lia.
  - unfold releaseChannel. destruct (getChannel fm n); simpl.
    + unfold pendingReleases at 1. simpl. rewrite pendingReleases_app. simpl. lia.
    + rewrite fulfilled_app, length_app. simpl. unfold pendingReleases. simpl. lia.
  - unfold stopForegroundActivity. destruct (foregroundSnapshot fm) as [task|] eqn:Hs; simpl.
    + unfold foregroundSnapshot in Hs.
      destruct (getHighestPriorityActiveChannelLocked fm); [|done].
      injection Hs as <-. unfold pendingReleases. simpl. lia.
    + rewrite fulfilled_app. simpl. rewrite app_nil_r. unfold pendingReleases. simpl. lia.
  - unfold stopForegroundActivityDuringTask.
    destruct (m_executor fm) as [|running rest] eqn:Hex; [lia|].
    destruct (foregroundSnapshot fm) as [task|] eqn:Hs; simpl.
    + unfold foregroundSnapshot in Hs.
      destruct (getHighestPriorityActiveChannelLocked fm); [|done].
      injection Hs as <-. unfold pendingReleases. simpl. rewrite Hex. simpl.
      destruct (isReleaseTask running); simpl; lia.
    + rewrite fulfilled_app. simpl. rewrite app_nil_r. unfold pendingReleases. simpl.
      rewrite Hex. lia.
  - unfold runNext, pendingReleases.
    destruct (m_executor fm) as [|task rest] eqn:Hex; [rewrite Hex; lia|].
    destruct task as [c o a|c o n|c a]; simpl.
    + rewrite fulfilled_acquire, acquire_executor. simpl. lia.
    + rewrite fulfilled_release, release_executor, length_app. simpl. lia.
    + rewrite fulfilled_stop, stop_executor. simpl. lia.
Qed.

Lemma fulfilled_constructor configs : fulfilled (outputs (FocusManager configs)) = [].
Proof.
  induction configs as [|config configs IH] using rev_ind; [done|].
  rewrite constructor_snoc.
  destruct (addChannel_cases (FocusManager configs) config)
    as [[_ ->]|[(_ & _ & ->)|(_ & _ & ->)]]; simpl;
    rewrite ?fulfilled_app, IH; done.
Qed.

(** X2.  After every history, the number of promise values set so far plus
    the number of release tasks still queued equals the number of release
    calls made: every release call is answered once, at the call for an
    unknown name and by its task otherwise, and never twice. *)
Theorem promises_accounted effect configs calls :
  let fm := history effect configs calls in
  length (fulfilled (outputs fm)) + pendingReleases fm =
  length (List.filter isReleaseCall calls).
Proof.
  induction calls as [|call calls IH] using rev_ind; simpl.
  - destruct (constructor_invariant configs) as (_ & _ & He).
    unfold pendingReleases, history. simpl.
    by rewrite He, fulfilled_constructor.
  - simpl in IH. rewrite history_snoc, promises_step, IH.
    rewrite List.filter_app, length_app. simpl.
    destruct (isReleaseCall call); simpl; lia.
Qed.

(** ** The release call *)

(** X1.  [releaseChannel] for an unknown name logs [channelNotFound],
    fulfils the promise with false at once and queues nothing; for a
    registered name it queues the release task, and once that task has run
    on an idle queue the promise has received exactly one value: whether
    the observer owns the channel. *)
Theorem release_call_result effect n o fm :
  (¬ registered fm n →
   releaseChannel n o fm =
   emit [logged (releaseChannelFailed "channelNotFound" n); set_value false] fm) ∧
  (registered fm n →
   releaseChannel n o fm = submit (ReleaseTask n o n) fm ∧
   (m_executor fm = [] →
    fulfilled (outputs (runNext effect (releaseChannel n o fm))) =
    fulfilled (outputs fm) ++ [doesObserverOwnChannel fm n o])).
Proof.
  split.
  - intros Hn. unfold releaseChannel, getChannel.
    destruct (m_allChannels fm !! n) eqn:Hc; [|done].
    destruct Hn. by eexists.
  - intros Hreg. split.
    + destruct Hreg as [ch Hc]. unfold releaseChannel, getChannel. by rewrite Hc.
    + intros Hidle. rewrite settle_release by done. apply fulfilled_release.
Qed.

(** ** The registry never changes *)

Lemma sameRegistry_perform effect fm call : sameRegistry fm (perform effect fm call).
Proof.
  destruct call as [n o a|n o| | |]; simpl.
  - unfold acquireChannel. by destruct (getChannel fm n); intros c.
  - unfold releaseChannel. by destruct (getChannel fm n); intros c.
  - unfold stopForegroundActivity. by destruct (foregroundSnapshot fm); intros c.
  - unfold stopForegroundActivityDuringTask.
    by destruct (m_executor fm), (foregroundSnapshot fm); intros c.
  - unfold runNext. destruct (m_executor fm) as [|task rest]; [apply sameRegistry_refl|].
    set (fm0 := FocusManager.mk _ _ rest _).
    assert (sameRegistry fm fm0) as H0 by (by intros c).
    eapply sameRegistry_trans; [exact H0|].
    destruct task; simpl.
    + apply acquire_sameRegistry.
    + apply release_sameRegistry.
    + apply stop_sameRegistry.
Qed.

Lemma sameRegistry_history effect configs calls :
  sameRegistry (FocusManager configs) (history effect configs calls).
Proof.
  induction calls as [|call calls IH] using rev_ind; [apply sameRegistry_refl|].
  rewrite history_snoc. eapply sameRegistry_trans; [exact IH|].
  apply sameRegistry_perform.
Qed.

(** X3.  No call and no task registers, removes or re-prioritises a
    channel: after every history [getChannel] answers as it did right after
    construction, and every channel has the priority it was created with. *)
Theorem registry_immutable effect configs calls n :
  getChannel (history effect configs calls) n = getChannel (FocusManager configs) n ∧
  Channel.m_priority <$> m_allChannels (history effect configs calls) !! n =
  Channel.m_priority <$> m_allChannels (FocusManager configs) !! n.
Proof.
  pose proof (sameRegistry_history effect configs calls n) as Hs. split; [|done].
  unfold getChannel.
  destruct (m_allChannels (history effect configs calls) !! n),
           (m_allChannels (FocusManager configs) !! n); done.
Qed.

(** ** The shape of the active set *)

(** X4.  After every history the active set is listed in strictly
    increasing priority number, has no repetition, holds registered
    channels only, and so has at most as many elements as there are
    registered channels. *)
Theorem active_set_ordered effect configs calls :
  let fm := history effect configs calls in
  StronglySorted (λ a b, (prio fm a < prio fm b)%N) (m_activeChannels fm) ∧
  NoDup (m_activeChannels fm) ∧
  (∀ c, active fm c → registered fm c) ∧
  length (m_activeChannels fm) ≤ size (m_allChannels fm).
Proof.
  intros fm. pose proof (wf_history effect configs calls) as [Hu Hr Ho Hq Ha].
  fold fm in Hr, Ho.
  assert (NoDup (m_activeChannels fm)) as Hnd by by eapply ordered_NoDup.
  split; [done|]. split; [done|]. split; [done|].
  rewrite <- size_dom. unfold size, set_size. simpl.
  apply submseteq_length, NoDup_submseteq; [done|].
  intros c Hc. apply elem_of_elements, elem_of_dom, Hr, Hc.
Qed.

(** ** The foreground query *)

(** X5.  After every history [isChannelForegroundedLocked] is true of a
    channel exactly when that channel is active with cached focus
    [FOREGROUND], and then every other active channel has a strictly larger
    priority number. *)
Theorem foreground_query effect configs calls c :
  let fm := history effect configs calls in
  (isChannelForegroundedLocked fm c = true ↔
   active fm c ∧ focusOf fm c = Some FOREGROUND) ∧
  (isChannelForegroundedLocked fm c = true →
   ∀ p, active fm p → p ≠ c → (prio fm c < prio fm p)%N).
Proof.
  intros fm. pose proof (wf_history effect configs calls) as [Hu Hr Ho Hq Ha].
  fold fm in Hr, Ho, Ha.
  unfold isChannelForegroundedLocked, getHighestPriorityActiveChannelLocked,
    arbitrated, active in *.
  rewrite bool_decide_eq_true.
  destruct (m_activeChannels fm) as [|top rest].
  - split; [|done]. split; [done|]. by intros [?%elem_of_nil _].
  - destruct Ha as [Htop Hrest]. split; [split|].
    + intros [= ->]. split; [left|done].
    + intros [[->|Hin]%elem_of_cons Hf]; [done|].
      rewrite (Hrest c Hin) in Hf. done.
    + intros [= ->] p [->|Hin]%elem_of_cons Hne; [done|].
      by eapply ordered_head_least.
Qed.

(** ** The outcome of an acquire against the whole active set *)

(** X6.  In a state reached by any history, an acquire task puts the
    acquired channel in the foreground, first in the active set, when no
    active channel has a smaller priority number; when some active channel
    has a strictly smaller one the acquired channel goes to the background
    and the first active channel stays the same.  Comparing with the
    snapshot alone decides against the whole active set. *)
Theorem acquire_outcome effect configs calls c o a :
  let fm := history effect configs calls in
  registered fm c →
  let fm' := acquireChannelHelper c o a fm in
  ((∀ p, active fm p → (prio fm c ≤ prio fm p)%N) →
   focusOf fm' c = Some FOREGROUND ∧
   getHighestPriorityActiveChannelLocked fm' = Some c) ∧
  (∀ p, active fm p → (prio fm p < prio fm c)%N →
   focusOf fm' c = Some BACKGROUND ∧
   getHighestPriorityActiveChannelLocked fm' =
   getHighestPriorityActiveChannelLocked fm).
Proof.
  intros fm Hc fm'. pose proof (wf_history effect configs calls) as [Hu Hr Ho Hq Ha].
  fold fm in Hu, Hr, Ho, Ha.
  pose proof (acquire_focusOf c o a fm c Hc Hr) as Hf. fold fm' in Hf.
  pose proof (acquire_active c o a fm) as Hact. fold fm' in Hact.
  unfold getHighestPriorityActiveChannelLocked, active in *.
  rewrite Hf, Hact. clear Hf Hact.
  destruct (m_activeChannels fm) as [|top rest].
  - split; [|by intros p ?%elem_of_nil].
    intros _. by rewrite decide_True.
  - assert (registered fm top) as Htr by (apply Hr; left).
    split.
    + intros Hleast. assert (prio fm c ≤ prio fm top)%N as Hle by (apply Hleast; left).
      destruct (decide (top = c)) as [->|Hne].
      * rewrite decide_True by done.
        by rewrite (set_insert_head_eq (prio fm)) by (done || apply acquire_comparator).
      * assert (prio fm c < prio fm top)%N as Hlt.
        { destruct (decide (prio fm c = prio fm top)) as [Heq|]; [|lia].
          destruct Hne. symmetry. by apply (prio_inj fm). }
        rewrite (proj2 (N.ltb_lt _ _) Hlt), decide_True by done.
        by rewrite (set_insert_head_lt (prio fm)) by (done || apply acquire_comparator).
    + intros p Hp Hlt.
      assert (prio fm top < prio fm c)%N as Htop.
      { apply elem_of_cons in Hp as [->|Hp]; [done|].
        pose proof (ordered_head_least _ _ _ _ Ho Hp). lia. }
      rewrite decide_False by (intros ->; lia).
      rewrite (proj2 (N.ltb_ge _ _)) by lia.
      rewrite decide_True by done.
      by rewrite (set_insert_head_gt (prio fm)) by (done || apply acquire_comparator).
Qed.

(** ** The stop request and its task *)

Lemma run_stop_first effect fm p l :
  m_activeChannels fm = p :: l →
  runNext effect (stopForegroundActivity fm) =
  stopForegroundActivityHelper effect p (getActivityId fm p) fm.
Proof.
  intros Hact.
  unfold stopForegroundActivity, foregroundSnapshot,
    getHighestPriorityActiveChannelLocked.
  rewrite Hact. unfold runNext. simpl. by destruct fm.
Qed.

Lemma snapshot_stops fm c :
  registered fm c → stopActivity fm c (getActivityId fm c) = true.
Proof.
  intros [ch Hc]. apply stopActivity_true. exists ch. split; [done|].
  unfold getActivityId. by rewrite Hc.
Qed.

(** X7.  In a state reached by any history with an active channel, a stop
    request followed by one worker step runs the stop task before every
    task that was queued: the queue is left as it was, the foreground
    channel leaves the active set with its activity id cleared, and the
    channel that is now first, if any, has focus [FOREGROUND]. *)
Theorem stop_preempts_queue effect configs calls p l :
  let fm := history effect configs calls in
  m_activeChannels fm = p :: l →
  let fm' := runNext effect (stopForegroundActivity fm) in
  fm' = stopForegroundActivityHelper effect p (getActivityId fm p) fm ∧
  m_executor fm' = m_executor fm ∧
  m_activeChannels fm' = l ∧
  getActivityId fm' p = EmptyString ∧
  (∀ q, getHighestPriorityActiveChannelLocked fm' = Some q →
        focusOf fm' q = Some FOREGROUND).
Proof.
  intros fm Hact fm'. pose proof (wf_history effect configs calls) as Hwf. fold fm in Hwf.
  assert (registered fm p) as Hp.
  { apply (wf_registered _ Hwf). unfold active. rewrite Hact. left. }
  pose proof (snapshot_stops fm p Hp) as Hstop.
  assert (fm' = stopForegroundActivityHelper effect p (getActivityId fm p) fm) as Hfm'
    by by eapply run_stop_first.
  split; [done|]. rewrite Hfm'.
  split; [apply stop_executor|].
  split; [|split].
  - rewrite stop_active, Hact by done.
    apply (set_erase_head_eq (prio fm)); [apply stop_comparator|done].
  - by apply stop_activity_cleared.
  - intros q Hq.
    pose proof (wf_arbitrated _ (wf_stop effect p (getActivityId fm p) fm Hwf)) as Harb.
    unfold arbitrated, getHighestPriorityActiveChannelLocked in *.
    destruct (m_activeChannels
                (stopForegroundActivityHelper effect p (getActivityId fm p) fm))
      as [|q' l']; [done|].
    injection Hq as ->. apply Harb.
Qed.

(** A stop task for a channel that is no longer first in the active set. *)
Lemma stop_not_foreground effect c a fm :
  wf fm → stopActivity fm c a = true →
  getHighestPriorityActiveChannelLocked fm ≠ Some c →
  stopForegroundActivityHelper effect c a fm =
  eraseActive c (setActivityId c EmptyString (stopEffect effect c fm)) ∧
  getHighestPriorityActiveChannelLocked (stopForegroundActivityHelper effect c a fm) =
  getHighestPriorityActiveChannelLocked fm.
Proof.
  intros Hwf Hs Hne. pose proof Hwf as [Hu Hr Ho Hq Ha].
  rewrite stop_unfold by done. rewrite foreground_unfold.
  remember (eraseActive c (setActivityId c EmptyString (stopEffect effect c fm)))
    as erased eqn:He.
  assert (m_activeChannels erased =
          set_erase
            (ChannelPtrComparator
               (m_allChannels (setActivityId c EmptyString (stopEffect effect c fm))))
            c (m_activeChannels fm)) as Hact.
  { subst erased. simpl. unfold setActivityId.
    by rewrite call_active, stopEffect_active. }
  assert (∀ x, x ≠ c → focusOf erased x = focusOf fm x) as Hfocus.
  { intros x Hx. subst erased. unfold focusOf. simpl.
    by rewrite setActivityId_lookup, decide_False, stopEffect_lookup, decide_False. }
  pose proof Hs as (ch & Hc & _)%stopActivity_true.
  unfold getHighestPriorityActiveChannelLocked, arbitrated, active in *.
  destruct (m_activeChannels fm) as [|top rest] eqn:Htop.
  - simpl in Hact. by rewrite !Hact.
  - assert (top ≠ c) as Htc by congruence.
    assert (prio fm top ≠ prio fm c) as Hpc.
    { intros Heq. apply Htc, (prio_inj fm); [done|apply Hr; left|by eexists|done]. }
    rewrite (set_erase_head_ne (prio fm)) in Hact by (done || apply stop_comparator).
    rewrite Hact.
    assert (setFocus top FOREGROUND erased = erased) as ->.
    { apply setFocus_same. rewrite Hfocus by done. apply Ha. }
    by rewrite Hact.
Qed.

(** X8.  In a state reached by any history, a stop task whose activity id
    matches but whose channel is not first in the active set any more
    removes the channel from the active set and clears its activity id,
    and it promotes nobody: the first active channel stays the same, no
    other channel changes, and the only output is what [stopActivity]
    itself delivers to the observer of the stopped channel, which is
    nothing when it only returns its result and [NONE] when it sets the
    focus to [NONE]. *)
Theorem stop_behind_promotes_nobody effect configs calls c a ch :
  let fm := history effect configs calls in
  stopActivity fm c a = true → m_allChannels fm !! c = Some ch →
  getHighestPriorityActiveChannelLocked fm ≠ Some c →
  let fm' := stopForegroundActivityHelper effect c a fm in
  let focus := stoppedFocus effect (Channel.m_focusState ch) in
  outputs fm' =
    outputs fm ++ callback (Channel.m_observer ch) (Channel.m_focusState ch) focus ∧
  getHighestPriorityActiveChannelLocked fm' = getHighestPriorityActiveChannelLocked fm ∧
  ¬ active fm' c ∧
  m_allChannels fm' !! c =
    Some (Channel.mk (Channel.m_priority ch) focus (Channel.m_observer ch) EmptyString) ∧
  (∀ c', c' ≠ c → m_allChannels fm' !! c' = m_allChannels fm !! c').
Proof.
  intros fm Hs Hc Hne fm' focus.
  pose proof (wf_history effect configs calls) as Hwf. fold fm in Hwf.
  destruct (stop_not_foreground effect c a fm Hwf Hs Hne) as [Heq Htop].
  split; [|split; [done|split; [|split]]].
  - subst fm'. rewrite Heq. simpl. unfold setActivityId. rewrite call_outputs.
    rewrite stopEffect_outputs, stopEffect_lookup, decide_True, Hc by done.
    simpl. by rewrite app_nil_r.
  - by intros [_ ?]%stop_active_other.
  - by apply stop_lookup_stopped.
  - intros c' Hc'. subst fm'. rewrite Heq. simpl.
    by rewrite setActivityId_lookup, decide_False, stopEffect_lookup, decide_False.
Qed.

(** ** A second acquire and the pending stop or release *)

(** X9.  The guard of the stop task compares activity ids only.  After an
    acquire task of a registered channel with activity id [a'], a stop task
    that captured the same id passes the guard, whoever the observer is,
    and a stop task that captured another id changes nothing. *)
Theorem reacquire_and_pending_stop effect c o a a' fm :
  registered fm c →
  stopActivity (acquireChannelHelper c o a' fm) c a' = true ∧
  (a ≠ a' →
   stopForegroundActivityHelper effect c a (acquireChannelHelper c o a' fm) =
   acquireChannelHelper c o a' fm).
Proof.
  intros [ch Hc].
  destruct (acquire_lookup_acquired c o a' fm ch Hc) as (focus & _ & Hlook).
  split.
  - apply stopActivity_true. eauto.
  - intros Hne. apply stop_rejected, not_true_is_false.
    intros (ch' & Hc' & Ha)%stopActivity_true.
    rewrite Hlook in Hc'. injection Hc' as <-. simpl in Ha. congruence.
Qed.

(** X10.  After an acquire task has installed observer [o2] on a
    registered channel, [o2] owns the channel, and a release task by any
    other observer, the one that was replaced included, is rejected: it
    logs [observerDoesNotOwnChannel], fulfils the promise with false and
    changes nothing else. *)
Theorem replaced_observer_cannot_release c o1 o2 a n fm :
  registered fm c → o1 ≠ o2 →
  let fm' := acquireChannelHelper c o2 a fm in
  doesObserverOwnChannel fm' c o2 = true ∧
  releaseChannelHelper c o1 n fm' =
  emit [logged (releaseChannelHelperFailed "observerDoesNotOwnChannel" n);
        set_value false] fm'.
Proof.
  intros [ch Hc] Hne fm'.
  destruct (acquire_lookup_acquired c o2 a fm ch Hc) as (focus & _ & Hlook).
  fold fm' in Hlook. split.
  - apply doesObserverOwnChannel_observer. eauto.
  - apply release_rejected, not_true_is_false.
    intros (ch' & Hc' & Ho)%doesObserverOwnChannel_observer.
    rewrite Hlook in Hc'. injection Hc' as <-. simpl in Ho. congruence.
Qed.

(** ** A stop followed by the release of the stopped channel *)

Lemma activeIffFocused_vacantNone fm : activeIffFocused fm → vacantNone fm.
Proof.
  intros Hiff c [ch Hc] Hna. unfold focusOf. rewrite Hc. simpl. f_equal.
  destruct (decide (Channel.m_focusState ch = NONE)) as [|Hne]; [done|].
  destruct Hna. by apply (Hiff c ch).
Qed.

(** X11.  In a state reached by any history in which "active iff focused"
    holds, stopping the foreground activity and then releasing the stopped
    channel by the observer recorded in it leaves the other channels
    active, and the unique-foreground property and "active iff focused"
    hold afterwards, whatever [stopActivity] does to the cached focus of
    the channel it stops. *)
Theorem stop_then_release_restores effect configs calls p l ch n :
  let fm := history effect configs calls in
  activeIffFocused fm →
  m_activeChannels fm = p :: l →
  let stopped := stopForegroundActivityHelper effect p (getActivityId fm p) fm in
  m_allChannels stopped !! p = Some ch →
  let fm' := releaseChannelHelper p (Channel.m_observer ch) n stopped in
  m_activeChannels fm' = l ∧ uniqueForeground fm' ∧ activeIffFocused fm'.
Proof.
  intros fm Hiff Hact stopped Hp1 fm'.
  pose proof (wf_history effect configs calls) as Hwf. fold fm in Hwf.
  pose proof (activeIffFocused_vacantNone fm Hiff) as Hv.
  assert (registered fm p) as Hreg.
  { apply (wf_registered _ Hwf). unfold active. rewrite Hact. left. }
  pose proof (snapshot_stops fm p Hreg) as Hstop.
  assert (wf stopped) as Hwf1 by by apply wf_stop.
  assert (wf fm') as Hwf2 by by apply wf_release.
  assert (m_activeChannels stopped = l) as Hact1.
  { unfold stopped. rewrite stop_active, Hact by done.
    apply (set_erase_head_eq (prio fm)); [apply stop_comparator|done]. }
  assert (p ∉ l) as Hpl.
  { pose proof (wf_ordered _ Hwf) as Ho. rewrite Hact in Ho.
    apply ordered_NoDup, NoDup_cons in Ho. apply Ho. }
  assert (∀ x, x ≠ p → focusOf stopped x =
               match l with
               | q :: _ => if decide (x = q) then Some FOREGROUND else focusOf fm x
               | [] => focusOf fm x
               end) as Hf1.
  { intros x Hx. unfold stopped. rewrite stop_focusOf by apply Hwf.
    rewrite Hstop. fold stopped. rewrite Hact1.
    by rewrite stopEffect_focusOf, decide_False. }
  pose proof (owner_doesObserverOwnChannel _ _ _ Hp1) as Hown.
  assert (m_activeChannels fm' = l) as Hact2.
  { subst fm'. rewrite release_active by done. rewrite Hact1.
    apply (set_erase_absent (prio stopped)); [apply comparator_prio|].
    intros y Hy Heq. apply Hpl.
    assert (y = p) as <-; [|done].
    apply (prio_inj stopped); [apply Hwf1| |by eexists|done].
    apply (wf_registered _ Hwf1). unfold active. by rewrite Hact1. }
  assert (∀ x, focusOf fm' x =
               if decide (x = p) then Some NONE else focusOf stopped x) as Hf2.
  { intros x. subst fm'. rewrite release_focusOf by done. rewrite Hact1.
    destruct l as [|q [|q' l']]; [done|done|].
    rewrite decide_False; [done|]. intros ->. apply Hpl. left. }
  assert (vacantNone fm') as Hv2.
  { intros x Hx Hnx. rewrite Hf2. case_decide as Hxp; [done|].
    unfold active in Hnx. rewrite Hact2 in Hnx.
    rewrite Hf1 by done.
    assert (focusOf fm x = Some NONE) as Hnone.
    { apply Hv.
      - apply (sameRegistry_registered fm) in Hx; [done|].
        eapply sameRegistry_trans; [apply stop_sameRegistry|apply release_sameRegistry].
      - unfold active. rewrite Hact. intros [->|Hin]%elem_of_cons; done. }
    destruct l as [|q l']; [done|].
    rewrite decide_False; [done|]. intros ->. apply Hnx. left. }
  split; [done|]. split.
  - by apply wf_uniqueForeground.
  - by apply wf_activeIffFocused.
Qed.

(** ** More on the constructor *)

Lemma constructor_provenance configs n ch :
  m_allChannels (FocusManager configs) !! n = Some ch →
  ch = Channel.new (Channel.m_priority ch) ∧
  mkConfig n (Channel.m_priority ch) ∈ configs.
Proof.
  revert n ch. induction configs as [|config configs IH] using rev_ind; intros n ch.
  - simpl. by rewrite lookup_empty.
  - rewrite constructor_snoc.
    destruct (addChannel_cases (FocusManager configs) config)
      as [[_ ->]|[(_ & _ & ->)|(_ & _ & ->)]]; simpl.
    + intros [? ?]%IH. split; [done|]. apply elem_of_app. by left.
    + intros [? ?]%IH. split; [done|]. apply elem_of_app. by left.
    + rewrite lookup_insert. case_decide as Hd.
      * intros [= <-]. split; [done|]. subst n. simpl.
        apply elem_of_app. right. destruct config. apply list_elem_of_here.
      * intros [? ?]%IH. split; [done|]. apply elem_of_app. by left.
Qed.

Lemma constructor_monotone before after n ch :
  m_allChannels (FocusManager before) !! n = Some ch →
  m_allChannels (FocusManager (before ++ after)) !! n = Some ch.
Proof.
  intros Hn. induction after as [|config after IH] using rev_ind.
  - by rewrite app_nil_r.
  - rewrite app_assoc, constructor_snoc.
    destruct (addChannel_cases (FocusManager (before ++ after)) config)
      as [[_ ->]|[(_ & _ & ->)|(Hfresh & _ & ->)]]; simpl; [done..|].
    rewrite lookup_insert_ne; [done|].
    intros <-. apply Hfresh. by eexists.
Qed.

(** X12.  The constructor handles every entry exactly once: the number of
    registered channels plus the number of logged rejections is the length
    of the configuration list.  It leaves the active set and the queue
    empty, and every registered channel is a fresh channel made from an
    entry of the list with that name and priority. *)
Theorem constructor_accounting configs :
  let fm := FocusManager configs in
  size (m_allChannels fm) + length (outputs fm) = length configs ∧
  m_activeChannels fm = [] ∧ m_executor fm = [] ∧
  (∀ n ch, m_allChannels fm !! n = Some ch →
           ch = Channel.new (Channel.m_priority ch) ∧
           mkConfig n (Channel.m_priority ch) ∈ configs).
Proof.
  intros fm. destruct (constructor_invariant configs) as (_ & Ha & He).
  split; [|split; [done|split; [done|]]].
  - subst fm. clear Ha He.
    induction configs as [|config configs IH] using rev_ind; [done|].
    rewrite constructor_snoc, length_app. simpl.
    destruct (addChannel_cases (FocusManager configs) config)
      as [[_ ->]|[(_ & _ & ->)|(Hfresh & _ & ->)]]; simpl.
    + rewrite length_app. simpl. lia.
    + rewrite length_app. simpl. lia.
    + rewrite map_size_insert_None; [lia|]. by apply not_nameTaken.
  - intros n ch. apply constructor_provenance.
Qed.

(** X13.  Construction never overwrites: a channel registered by a prefix
    of the list is still registered, unchanged, at the end.  Hence no entry
    is lost without trace, its name or its priority is taken in the end,
    and the first entry of the list is always registered as given. *)
Theorem constructor_first_wins before config after :
  let all := FocusManager (before ++ config :: after) in
  (∀ n ch, m_allChannels (FocusManager before) !! n = Some ch →
           m_allChannels all !! n = Some ch) ∧
  (nameTaken all (name config) ∨ priorityTaken all (priority config)) ∧
  (before = [] →
   m_allChannels all !! name config = Some (Channel.new (priority config))).
Proof.
  intros all.
  assert (all = FocusManager ((before ++ [config]) ++ after)) as Hall.
  { subst all. by rewrite <- app_assoc. }
  split; [|split].
  - intros n ch Hn. by apply constructor_monotone.
  - rewrite Hall.
    pose proof (constructor_snoc before config) as Hsnoc.
    destruct (addChannel_cases (FocusManager before) config)
      as [[[ch Hn] _]|[(_ & (n & ch & Hp & Hprio) & _)|(_ & _ & Heq)]].
    + left. exists ch. apply constructor_monotone.
      rewrite <- app_nil_r at 1. rewrite <- app_assoc. by apply constructor_monotone.
    + right. exists n, ch. split; [|done]. apply constructor_monotone.
      rewrite <- app_nil_r at 1. rewrite <- app_assoc. by apply constructor_monotone.
    + left. exists (Channel.new (priority config)). apply constructor_monotone.
      rewrite Hsnoc, Heq. simpl. apply lookup_insert_eq.
  - intros ->. rewrite Hall. apply constructor_monotone.
    rewrite (constructor_snoc [] config).
    destruct (addChannel_cases (FocusManager []) config)
      as [[[ch Hn] _]|[(_ & (n & ch & Hp & _) & _)|(_ & _ & ->)]]; simpl in *.
    + by rewrite lookup_empty in Hn.
    + by rewrite lookup_empty in Hp.
    + apply lookup_insert_eq.
Qed.

(** X14.  A configuration list with pairwise distinct names and pairwise
    distinct priorities is accepted whole: nothing is logged, and every
    entry is registered under its name as a fresh channel with its
    priority. *)
Theorem constructor_accepts_distinct configs :
  NoDup (name <$> configs) → NoDup (priority <$> configs) →
  let fm := FocusManager configs in
  outputs fm = [] ∧
  size (m_allChannels fm) = length configs ∧
  (∀ config, config ∈ configs →
     m_allChannels fm !! name config = Some (Channel.new (priority config))).
Proof.
  induction configs as [|config configs IH] using rev_ind; intros Hnames Hprios.
  - split; [done|]. split; [done|]. by intros config ?%elem_of_nil.
  - rewrite fmap_app in Hnames. rewrite fmap_app in Hprios.
    simpl in Hnames, Hprios.
    apply NoDup_app in Hnames as (Hnames & Hname & _).
    apply NoDup_app in Hprios as (Hprios & Hprio & _).
    destruct (IH Hnames Hprios) as (Hout & Hsize & Hall). clear IH.
    cbv zeta. rewrite constructor_snoc.
    destruct (addChannel_cases (FocusManager configs) config)
      as [[[ch Hn] _]|[(_ & (n & ch & Hp & Heq) & _)|(Hfresh & _ & ->)]].
    + apply constructor_provenance in Hn as [_ Hin].
      destruct (Hname (name config)); [|apply list_elem_of_here].
      apply list_elem_of_fmap.
      exists (mkConfig (name config) (Channel.m_priority ch)). by split.
    + apply constructor_provenance in Hp as [_ Hin].
      destruct (Hprio (priority config)); [|apply list_elem_of_here].
      apply list_elem_of_fmap. exists (mkConfig n (Channel.m_priority ch)).
      split; [by rewrite Heq|exact Hin].
    + simpl. split; [done|]. split.
      * rewrite map_size_insert_None by by apply not_nameTaken.
        rewrite length_app. simpl. lia.
      * intros config' [Hin| ->%list_elem_of_singleton]%elem_of_app.
        -- rewrite lookup_insert_ne; [by apply Hall|].
           intros Heq. apply Hfresh. rewrite Heq. eexists. by apply Hall.
        -- apply lookup_insert_eq.
Qed.

(** ** Release of a vacant channel *)

(** X15.  In a state reached by any history, a release task for a channel
    that is not active and has focus [NONE], by the observer recorded in
    the channel (the null observer for a channel never acquired), only
    fulfils the promise with true: no observer is called and nothing else
    changes. *)
Theorem release_of_vacant_channel effect configs calls c n ch :
  let fm := history effect configs calls in
  m_allChannels fm !! c = Some ch →
  Channel.m_focusState ch = NONE → ¬ active fm c →
  releaseChannelHelper c (Channel.m_observer ch) n fm = emit [set_value true] fm.
Proof.
  intros fm Hc Hnone Hna.
  pose proof (wf_history effect configs calls) as Hwf. fold fm in Hwf.
  pose proof (owner_doesObserverOwnChannel _ _ _ Hc) as Hown.
  rewrite release_unfold by done. cbv zeta.
  remember (emit [set_value true] fm) as told eqn:Ht.
  assert (eraseActive c told = told) as Herase.
  { subst told. unfold eraseActive, emit. simpl. f_equal.
    apply (set_erase_absent (prio fm)); [apply comparator_prio|].
    intros y Hy Heq. apply Hna.
    assert (y = c) as <-; [|done].
    apply (prio_inj fm); [apply Hwf|by apply (wf_registered _ Hwf)|by eexists|done]. }
  rewrite Herase.
  assert (setFocus c NONE told = told) as ->.
  { apply setFocus_same. subst told. unfold focusOf. simpl. rewrite Hc. simpl.
    by rewrite Hnone. }
  unfold active in Hna. destruct (m_activeChannels fm) as [|p l]; [done|].
  rewrite decide_False; [done|]. intros ->. apply Hna. left.
Qed.

(** ** Acquire then release restores the focus of every channel *)

(** X16.  In a state reached by any history, for a registered channel
    that is not active, the acquire task followed by the release task of
    the same observer leaves the channel with focus [NONE] and every other
    channel with the cached focus it had before: a channel pushed to the
    background by the acquire is back in the foreground. *)
Theorem roundtrip_restores_focus effect configs calls c o a n c' :
  let fm := history effect configs calls in
  registered fm c → ¬ active fm c →
  let fm' := releaseChannelHelper c o n (acquireChannelHelper c o a fm) in
  focusOf fm' c' = if decide (c' = c) then Some NONE else focusOf fm c'.
Proof.
  intros fm Hc Hna fm'. pose proof (wf_history effect configs calls) as Hwf. fold fm in Hwf.
  pose proof Hwf as [Hu Hr Ho Hq Ha].
  assert (wf (acquireChannelHelper c o a fm)) as Hwf1 by by apply wf_acquire.
  assert (doesObserverOwnChannel (acquireChannelHelper c o a fm) c o = true) as Hown.
  { destruct Hc as [ch Hc].
    destruct (acquire_lookup_acquired c o a fm ch Hc) as (focus & _ & Hlook).
    apply doesObserverOwnChannel_observer. eauto. }
  subst fm'. rewrite release_focusOf by done.
  rewrite acquire_active.
  rewrite !(acquire_focusOf c o a fm) by done.
  unfold active, arbitrated in *.
  destruct (m_activeChannels fm) as [|top rest] eqn:Hact.
  - simpl. by case_decide.
  - assert (top ≠ c) as Htc by (intros ->; apply Hna; left).
    assert (registered fm top) as Htr by (apply Hr; left).
    assert (prio fm top ≠ prio fm c) as Hpc.
    { intros Heq. by apply Htc, (prio_inj fm). }
    rewrite (decide_False (P := top = c)) by done.
    destruct (prio fm c <? prio fm top)%N eqn:Hlt.
    + apply N.ltb_lt in Hlt.
      rewrite (set_insert_head_lt (prio fm)) by (done || apply acquire_comparator).
      rewrite decide_True by done.
      case_decide; [done|]. case_decide; [subst; apply eq_sym, Ha|done].
    + apply N.ltb_ge in Hlt.
      rewrite (set_insert_head_gt (prio fm)) by (lia || apply acquire_comparator).
      destruct (set_insert _ c rest); rewrite ?(decide_False (P := top = c)) by done;
        by case_decide.
Qed.

(** ** The further properties on the running example *)

Lemma acquire_outcome_witness :
  let fm := history FocusNone exampleConfigs singleAcquire in
  registered fm "Dialog" ∧
  focusOf (acquireChannelHelper "Dialog" (Some 2) "tts" fm) "Dialog" = Some FOREGROUND.
Proof.
  intros fm.
  assert (registered fm "Dialog") as Hc by (eexists; vm_compute; reflexivity).
  split; [exact Hc|].
  destruct (acquire_outcome FocusNone exampleConfigs singleAcquire "Dialog"
              (Some 2) "tts" Hc) as [Hfirst _].
  apply Hfirst. intros p. unfold active.
  assert (m_activeChannels (history FocusNone exampleConfigs singleAcquire) =
          ["Content"]) as -> by (vm_compute; reflexivity).
  intros ->%list_elem_of_singleton.
  assert (prio (history FocusNone exampleConfigs singleAcquire) "Dialog" = 100%N) as ->
    by (vm_compute; reflexivity).
  assert (prio (history FocusNone exampleConfigs singleAcquire) "Content" = 300%N) as ->
    by (vm_compute; reflexivity).
  lia.
Defined.

Lemma stop_preempts_queue_witness :
  let fm := history FocusNone exampleConfigs higherPreempts in
  let fm' := runNext FocusNone (stopForegroundActivity fm) in
  m_activeChannels fm = ["Dialog"; "Content"] ∧
  m_activeChannels fm' = ["Content"] ∧ getActivityId fm' "Dialog" = EmptyString.
Proof.
  intros fm fm'.
  assert (m_activeChannels fm = ["Dialog"; "Content"]) as Hact
    by (vm_compute; reflexivity).
  split; [exact Hact|].
  destruct (stop_preempts_queue FocusNone exampleConfigs higherPreempts "Dialog"
              ["Content"] Hact) as (_ & _ & Hact' & Hid & _).
  split; [exact Hact'|exact Hid].
Defined.

Lemma stop_behind_promotes_nobody_witness :
  let fm := history FocusNone exampleConfigs stopBehind in
  let fm' := stopForegroundActivityHelper FocusNone "Content" "music" fm in
  stopActivity fm "Content" "music" = true ∧
  getHighestPriorityActiveChannelLocked fm = Some "Dialog" ∧
  outputs fm' = outputs fm ++ [onFocusChanged 1 NONE] ∧
  getHighestPriorityActiveChannelLocked fm' = Some "Dialog".
Proof.
  intros fm fm'.
  assert (stopActivity fm "Content" "music" = true) as Hs by (vm_compute; reflexivity).
  assert (getHighestPriorityActiveChannelLocked fm = Some "Dialog") as Htop
    by (vm_compute; reflexivity).
  assert (m_allChannels fm !! "Content" =
          Some (Channel.mk 300 BACKGROUND (Some 1) "music")) as Hc
    by (vm_compute; reflexivity).
  split; [exact Hs|]. split; [exact Htop|].
  destruct (stop_behind_promotes_nobody FocusNone exampleConfigs stopBehind
              "Content" "music" _ Hs Hc) as (Hout & Htop' & _).
  - fold fm. rewrite Htop. intros Heq. discriminate Heq.
  - split; [exact Hout|]. etrans; [exact Htop'|exact Htop].
Defined.

Lemma reacquire_and_pending_stop_witness :
  let fm := history FocusNone exampleConfigs singleAcquire in
  let fm' := acquireChannelHelper "Content" (Some 2) "news" fm in
  registered fm "Content" ∧
  stopForegroundActivityHelper FocusNone "Content" "music" fm' = fm'.
Proof.
  intros fm fm'.
  assert (registered fm "Content") as Hc by (eexists; vm_compute; reflexivity).
  split; [exact Hc|].
  apply (reacquire_and_pending_stop FocusNone "Content" (Some 2) "music" "news" fm Hc).
  intros Heq. discriminate Heq.
Defined.

Lemma replaced_observer_cannot_release_witness :
  let fm := history FocusNone exampleConfigs singleAcquire in
  let fm' := acquireChannelHelper "Content" (Some 2) "news" fm in
  registered fm "Content" ∧
  releaseChannelHelper "Content" (Some 1) "Content" fm' =
  emit [logged (releaseChannelHelperFailed "observerDoesNotOwnChannel" "Content");
        set_value false] fm'.
Proof.
  intros fm fm'.
  assert (registered fm "Content") as Hc by (eexists; vm_compute; reflexivity).
  split; [exact Hc|].
  apply (replaced_observer_cannot_release "Content" (Some 1) (Some 2) "news" "Content"
           fm Hc).
  intros Heq. discriminate Heq.
Defined.

Lemma stop_then_release_restores_witness :
  let restored effect focus :=
    let fm := history effect exampleConfigs higherPreempts in
    let stopped :=
      stopForegroundActivityHelper effect "Dialog" (getActivityId fm "Dialog") fm in
    let fm' := releaseChannelHelper "Dialog" (Some 2) "Dialog" stopped in
    focusOf stopped "Dialog" = Some focus ∧
    m_activeChannels fm' = ["Content"] ∧ uniqueForeground fm' ∧ activeIffFocused fm' in
  restored ResultOnly FOREGROUND ∧ restored FocusNone NONE.
Proof.
  assert (activeIffFocused (history FocusNone exampleConfigs higherPreempts)) as Hiff.
  { apply wf_activeIffFocused; [apply wf_history|apply vacantNone_history]. }
  assert (history ResultOnly exampleConfigs higherPreempts =
          history FocusNone exampleConfigs higherPreempts) as Hsame
    by (vm_compute; reflexivity).
  assert (activeIffFocused (history ResultOnly exampleConfigs higherPreempts)) as Hiff'.
  { rewrite Hsame. exact Hiff. }
  split.
  - split; [vm_compute; reflexivity|].
    apply (stop_then_release_restores ResultOnly exampleConfigs higherPreempts
             "Dialog" ["Content"] (Channel.mk 100 FOREGROUND (Some 2) EmptyString)
             "Dialog" Hiff'); vm_compute; reflexivity.
  - split; [vm_compute; reflexivity|].
    apply (stop_then_release_restores FocusNone exampleConfigs higherPreempts
             "Dialog" ["Content"] (Channel.mk 100 NONE (Some 2) EmptyString)
             "Dialog" Hiff); vm_compute; reflexivity.
Defined.

Lemma constructor_accepts_distinct_witness :
  NoDup (name <$> exampleConfigs) ∧ NoDup (priority <$> exampleConfigs) ∧
  outputs (FocusManager exampleConfigs) = [] ∧
  size (m_allChannels (FocusManager exampleConfigs)) = 3.
Proof.
  assert (NoDup (name <$> exampleConfigs)) as Hn
    by (apply (bool_decide_unpack _); vm_compute; exact I).
  assert (NoDup (priority <$> exampleConfigs)) as Hp
    by (apply (bool_decide_unpack _); vm_compute; exact I).
  split; [exact Hn|]. split; [exact Hp|].
  destruct (constructor_accepts_distinct exampleConfigs Hn Hp) as (Hout & Hsize & _).
  split; [exact Hout|exact Hsize].
Defined.

Lemma release_of_vacant_channel_witness :
  let fm := history FocusNone exampleConfigs [] in
  m_allChannels fm !! "Content" = Some (Channel.new 300) ∧
  releaseChannelHelper "Content" None "Content" fm = emit [set_value true] fm.
Proof.
  intros fm.
  assert (m_allChannels fm !! "Content" = Some (Channel.new 300)) as Hc
    by (vm_compute; reflexivity).
  split; [exact Hc|].
  apply (release_of_vacant_channel FocusNone exampleConfigs [] "Content" "Content" _ Hc).
  - reflexivity.
  - unfold active.
    assert (m_activeChannels (history FocusNone exampleConfigs []) = []) as ->
      by (vm_compute; reflexivity).
    intros Hin. apply elem_of_nil in Hin. exact Hin.
Defined.

Lemma roundtrip_restores_focus_witness :
  let fm := history FocusNone exampleConfigs singleAcquire in
  let fm' :=
    releaseChannelHelper "Dialog" (Some 2) "Dialog"
      (acquireChannelHelper "Dialog" (Some 2) "tts" fm) in
  registered fm "Dialog" ∧
  focusOf fm' "Dialog" = Some NONE ∧ focusOf fm' "Content" = focusOf fm "Content".
Proof.
  intros fm fm'.
  assert (registered fm "Dialog") as Hc by (eexists; vm_compute; reflexivity).
  assert (¬ active fm "Dialog") as Hna.
  { unfold active.
    assert (m_activeChannels fm = ["Content"]) as -> by (vm_compute; reflexivity).
    intros Heq%list_elem_of_singleton. discriminate Heq. }
  split; [exact Hc|]. split.
  - etrans; [exact (roundtrip_restores_focus FocusNone exampleConfigs singleAcquire "Dialog"
                      (Some 2) "tts" "Dialog" "Dialog" Hc Hna)|].
    reflexivity.
  - etrans; [exact (roundtrip_restores_focus FocusNone exampleConfigs singleAcquire "Dialog"
                      (Some 2) "tts" "Dialog" "Content" Hc Hna)|].
    reflexivity.
Defined.

Lemma release_call_result_witness :
  let fm := history FocusNone exampleConfigs singleAcquire in
  releaseChannel "Radio" (Some 1) fm =
  emit [logged (releaseChannelFailed "channelNotFound" "Radio"); set_value false] fm ∧
  fulfilled (outputs (runNext FocusNone (releaseChannel "Content" (Some 1) fm))) = [true].
Proof.
  intros fm.
  destruct (release_call_result FocusNone "Radio" (Some 1) fm) as [Hunknown _].
  destruct (release_call_result FocusNone "Content" (Some 1) fm) as [_ Hknown].
  split.
  - apply Hunknown. intros [ch Hch]. vm_compute in Hch. discriminate Hch.
  - destruct Hknown as [_ Hrun]; [eexists; vm_compute; reflexivity|].
    etrans; [apply Hrun; vm_compute; reflexivity|].
    vm_compute; reflexivity.
Defined.

Lemma foreground_query_witness :
  let fm := history FocusNone exampleConfigs higherPreempts in
  isChannelForegroundedLocked fm "Dialog" = true ∧
  (prio fm "Dialog" < prio fm "Content")%N.
Proof.
  intros fm.
  assert (isChannelForegroundedLocked fm "Dialog" = true) as Hfg
    by (vm_compute; reflexivity).
  split; [exact Hfg|].
  pose proof (foreground_query FocusNone exampleConfigs higherPreempts "Dialog") as Hq.
  cbv zeta in Hq. destruct Hq as [_ Hleast].
  apply (Hleast Hfg "Content").
  - unfold active.
    assert (m_activeChannels (history FocusNone exampleConfigs higherPreempts) =
            ["Dialog"; "Content"]) as -> by (vm_compute; reflexivity).
    apply list_elem_of_further, list_elem_of_here.
  - intros Heq. discriminate Heq.
Defined.

Lemma constructor_first_wins_witness :
  m_allChannels (FocusManager [mkConfig "Dialog" 100; mkConfig "Dialog" 200])
    !! "Dialog" = Some (Channel.new 100).
Proof.
  pose proof (constructor_first_wins [] (mkConfig "Dialog" 100)
                [mkConfig "Dialog" 200]) as Hfirst.
  cbv zeta in Hfirst. destruct Hfirst as (_ & _ & Hfirst).
  exact (Hfirst eq_refl).
Defined.
